(** * opm-simulators: multisegment-well coupling and the rate converter

    A shallow embedding of

    - [opm/autodiff/MultisegmentWell.hpp]: the compile-time layout of the
      primary variables, the well blocks [B], [C], [D] of the coupled
      system and the recovery of the well increment;
    - [opm/autodiff/RateConverter.hpp]: the class [SurfaceToReservoirVoidage]
      with its region attributes, averaging and miscibility model.

    Numbers.  A C++ [double] is read as an element of an ordered field [F]
    with exact arithmetic: rounding, infinities and NaN are outside the
    model.  The quotient by zero, which IEEE arithmetic does not trap, is an
    unspecified element [div0 x] of the field, so that a result that does
    not depend on [div0] is a result computed without dividing by zero.
    Selections ([std::min], the comparisons) and arithmetic with 0 and 1
    read the same on [double]; other identities hold there up to rounding.
    The sign or the vanishing of a difference of two nearly equal rounded
    values is not kept by this reading, and nothing is stated about one
    except at values that a [double] holds exactly.
    A C++ [int] is a MathComp [int]; the sizes that occur are far from the
    range where a machine integer wraps. *)

From HB Require Import structures.
From mathcomp Require Import boot order algebra.
From Stdlib Require Import String.

Set Implicit Arguments.
Unset Strict Implicit.
Unset Printing Implicit Defensive.

Import Order.TTheory GRing.Theory Num.Theory.
Local Open Scope ring_scope.

(** ** MultisegmentWell.hpp: primary-variable layout *)

Module MultisegmentWell.

(** What the class reads from its [TypeTag]: the number of reservoir
    equations [numEq], [Indices::compositionSwitchIdx] and the property
    [EnablePolymer]. *)
Record TypeTag := mkTypeTag {
  numEq : int;
  compositionSwitchIdx : int;
  EnablePolymer : bool
}.

Section Layout.

Variable tt : TypeTag.

(** [static const bool gasoil = numEq == 2 && (Indices::compositionSwitchIdx >= 0);] *)
Definition gasoil : bool :=
  (numEq tt == 2) && (0 <= compositionSwitchIdx tt).

(** [static const int GTotal = 0;] *)
Definition GTotal : int := 0.

(** [static const int WFrac = gasoil? -1000: 1;] *)
Definition WFrac : int := if gasoil then -1000 else 1.

(** [static const int GFrac = gasoil? 1 : 2;] *)
Definition GFrac : int := if gasoil then 1 else 2.

(** [static const int SPres = gasoil? 2 : 3;] *)
Definition SPres : int := if gasoil then 2 else 3.

(** [static const int numWellEq = GET_PROP_VALUE(TypeTag, EnablePolymer)? numEq : numEq + 1;] *)
Definition numWellEq : int :=
  if EnablePolymer tt then numEq tt else numEq tt + 1.

(** The four named primary variables, and the index constant of each. *)
Inductive PrimaryVariable := PV_GTotal | PV_WFrac | PV_GFrac | PV_SPres.

Definition index_of (v : PrimaryVariable) : int :=
  match v with
  | PV_GTotal => GTotal
  | PV_WFrac => WFrac
  | PV_GFrac => GFrac
  | PV_SPres => SPres
  end.

(** The variable stored at position [i] of [std::array<double, numWellEq>],
    read off the index constants. *)
Definition variable_at (i : int) : option PrimaryVariable :=
  ohead [seq v <- [:: PV_GTotal; PV_WFrac; PV_GFrac; PV_SPres]
             | index_of v == i].

(** The tuple of primary variables of one segment, position by position. *)
Definition primary_variable_tuple : seq (option PrimaryVariable) :=
  [seq variable_at (Posz i) | i <- iota 0 (absz numWellEq)].

End Layout.

(** The two configurations of the well model. *)
Definition gas_oil_two_phase (tt : TypeTag) : bool := gasoil tt.
Definition three_phase (tt : TypeTag) : bool := numEq tt == 3.

End MultisegmentWell.

(** ** MultisegmentWell.hpp: the well blocks and the recovery

    The header declares the blocks of the coupled system and the operations
    on them; the bodies of the operations are in
    [MultisegmentWell_impl.hpp].  The block-sparse Dune containers are read
    as dense matrices over the flattened unknowns. *)

Module SchurCoupler.

Section Coupler.

Variable F : fieldType.

(** [numEq] reservoir equations per cell, [numWellEq] well equations per
    segment. *)
Variables (numEq numWellEq : nat) (num_cells number_segments : nat).

(** [BVector]: the reservoir vector; [BVectorWell]:
    [Dune::BlockVector<Dune::FieldVector<Scalar, numWellEq>>]. *)
Definition BVector := 'cV[F]_(num_cells * numEq).
Definition BVectorWell := 'cV[F]_(number_segments * numWellEq).

(** [DiagMatWell]: blocks [numWellEq x numWellEq];
    [OffDiagMatWell]: blocks [numWellEq x numEq], one block row per
    segment and one block column per cell. *)
Definition DiagMatWell := 'M[F]_(number_segments * numWellEq).
Definition OffDiagMatWell :=
  'M[F]_(number_segments * numWellEq, num_cells * numEq).

(** The data members [duneB_], [duneC_], [duneD_], [resWell_]. *)
Record Well := mkWell {
  duneB_ : OffDiagMatWell;
  duneC_ : OffDiagMatWell;
  duneD_ : DiagMatWell;
  resWell_ : BVectorWell
}.

(** The blocks of the system [[A C^T; B D] [x; x_well] = [res; res_well]]
    of the header: [duneC_] has the block type of [duneB_], and the block
    that maps well unknowns to reservoir equations is its transpose. *)
Definition B (w : Well) : 'M[F]_(number_segments * numWellEq, num_cells * numEq) :=
  duneB_ w.
Definition C (w : Well) : 'M[F]_(num_cells * numEq, number_segments * numWellEq) :=
  (duneC_ w)^T.
Definition D (w : Well) : 'M[F]_(number_segments * numWellEq) := duneD_ w.
Definition resWell (w : Well) : BVectorWell := resWell_ w.

(** Modelled from the spec: the body of [recoverSolutionWell] is missing.
    "compute the well increment [xw = D^-1 . (resWell - B.x)]".  The
    comment above the declaration reads [xw = inv(D)*(rw - C*x)]; the
    block that stands beside [D] in the well row of the header's system is
    [B]. *)
Definition recoverSolutionWell (w : Well) (x : BVector) : BVectorWell :=
  invmx (D w) *m (resWell w - B w *m x).

End Coupler.

End SchurCoupler.

(** ** RateConverter.hpp *)

(** *** Exceptions and the state of an object

    A member function is a function of the object's mutable state that
    returns a value or throws, together with the state it leaves. *)

Inductive exception :=
  | invalid_argument (what : string)
  | assertion_failed (what : string).

Inductive result (A : Type) :=
  | Ok (a : A)
  | Throw (e : exception).

Arguments Ok {A} a.
Arguments Throw {A} e.

Definition M (S A : Type) : Type := S -> result A * S.

Definition ret {S A : Type} (a : A) : M S A := fun s => (Ok a, s).

Definition throw {S A : Type} (e : exception) : M S A := fun s => (Throw e, s).

Definition bind {S A B : Type} (m : M S A) (k : A -> M S B) : M S B :=
  fun s => match m s with
           | (Ok a, s') => k a s'
           | (Throw e, s') => (Throw e, s')
           end.

Notation "'do' x <-- m ; k" := (bind m (fun x => k))
  (at level 200, x name, m at level 100, k at level 200, right associativity).
Notation "m1 ;; m2" := (bind m1 (fun _ => m2))
  (at level 100, right associativity).

(** [for (const auto& x : xs) body(x)] *)
Fixpoint for_each {S A : Type} (xs : seq A) (body : A -> M S unit) : M S unit :=
  match xs with
  | [::] => ret tt
  | x :: xs' => body x ;; for_each xs' body
  end.

(** *** Collaborators declared outside these sources *)

(** [BlackoilPhases::Aqua], [Liquid], [Vapour] index the arrays of
    [PhaseUsage] (opm/core/props/BlackoilPhases.hpp); the record has the two
    arrays that the converter reads. *)
Inductive BlackoilPhases := Aqua | Liquid | Vapour.

Record PhaseUsage := mkPhaseUsage {
  phase_used : BlackoilPhases -> int;
  phase_pos : BlackoilPhases -> int
}.

(** [PhasePresence]: three flags, all clear after default construction. *)
Record PhasePresence := mkPhasePresence {
  hasFreeWater : bool;
  hasFreeOil : bool;
  hasFreeGas : bool
}.

Definition noPhase : PhasePresence := mkPhasePresence false false false.
Definition setFreeWater (c : PhasePresence) : PhasePresence :=
  mkPhasePresence true (hasFreeOil c) (hasFreeGas c).
Definition setFreeOil (c : PhasePresence) : PhasePresence :=
  mkPhasePresence (hasFreeWater c) true (hasFreeGas c).
Definition setFreeGas (c : PhasePresence) : PhasePresence :=
  mkPhasePresence (hasFreeWater c) (hasFreeOil c) true.

(** Region identifiers are integral ([RegionMapping<Region>::RegionId]). *)
Definition RegionId := int.

(** [RegionMapping<Region>] (opm/core/utility/RegionMapping.hpp): the
    reverse lookup from regions to cells, as far as the converter uses it. *)
Record RegionMapping := mkRegionMapping {
  activeRegions : seq RegionId;
  cells : RegionId -> seq nat
}.

Module Details.

(** [namespace PhaseUsed] *)
Module PhaseUsed.
Definition water (pu : PhaseUsage) : bool := phase_used pu Aqua != 0.
Definition oil (pu : PhaseUsage) : bool := phase_used pu Liquid != 0.
Definition gas (pu : PhaseUsage) : bool := phase_used pu Vapour != 0.
End PhaseUsed.

(** [namespace PhasePos]: the position of an active phase, -1 otherwise. *)
Module PhasePos.
Definition water (pu : PhaseUsage) : int :=
  if PhaseUsed.water pu then phase_pos pu Aqua else -1.
Definition oil (pu : PhaseUsage) : int :=
  if PhaseUsed.oil pu then phase_pos pu Liquid else -1.
Definition gas (pu : PhaseUsage) : int :=
  if PhaseUsed.gas pu then phase_pos pu Vapour else -1.
End PhasePos.

Section AverageIncrement.

Variable F : realFieldType.

(** [AverageIncrementCalculator<is_parallel>::operator()]: the primary
    template looks at [ownership[cell]], the specialization for [false]
    does not. *)
Definition AverageIncrementCalculator (is_parallel : bool)
    (pressure temperature ownership : seq F) (cell : nat) : F * F * nat :=
  if is_parallel then
    if nth 0 ownership cell != 0 then
      (nth 0 pressure cell, nth 0 temperature cell, 1%N)
    else (0, 0, 0%N)
  else (nth 0 pressure cell, nth 0 temperature cell, 1%N).

End AverageIncrement.

(** [template <typename RegionId, class Attributes> class RegionAttributes] *)
Section RegionAttributes.

Variable Attributes : Type.

(** [struct Value { Attributes attr_; int cell_; }] *)
Record Value := mkValue {
  attr_ : Attributes;
  cell_ : int
}.

(** [std::unordered_map<ID, std::unique_ptr<Value>>]: keys are unique, the
    order of the entries is not observable. *)
Definition AttributeMap := seq (RegionId * Value).

Fixpoint lookup (m : AttributeMap) (reg : RegionId) : option Value :=
  match m with
  | [::] => None
  | (k, v) :: m' => if k == reg then Some v else lookup m' reg
  end.

Fixpoint store (m : AttributeMap) (reg : RegionId) (v : Value) : AttributeMap :=
  match m with
  | [::] => [:: (reg, v)]
  | (k, v0) :: m' =>
      if k == reg then (k, v) :: m' else (k, v0) :: store m' reg v
  end.

(** One turn of the constructor's loop: [attr_.insert] does nothing when the
    key is present; a new entry gets [cells[0]] after
    [assert (! cells.empty())]. *)
Definition insert_region (rmap : RegionMapping) (attr : Attributes)
    (r : RegionId) : M AttributeMap unit :=
  fun m =>
    match lookup m r with
    | Some _ => (Ok tt, m)
    | None =>
        match cells rmap r with
        | [::] =>
            (Throw (assertion_failed "! cells.empty()"),
             rcons m (r, mkValue attr (-1)))
        | c0 :: _ => (Ok tt, rcons m (r, mkValue attr (Posz c0)))
        end
    end.

(** [RegionAttributes(const RMap& rmap, const Attributes& attr)] *)
Definition RegionAttributes (rmap : RegionMapping) (attr : Attributes)
    : result AttributeMap :=
  match for_each (activeRegions rmap) (insert_region rmap attr) [::] with
  | (Ok _, m) => Ok m
  | (Throw e, _) => Throw e
  end.

(** [const Value& find(const RegionID reg) const] and its non-const twin. *)
Definition find (reg : RegionId) : M AttributeMap Value :=
  fun m =>
    match lookup m reg with
    | None => (Throw (invalid_argument "Unknown region ID"), m)
    | Some v => (Ok v, m)
    end.

(** [int cell(const RegionID reg) const] *)
Definition cell (reg : RegionId) : M AttributeMap int :=
  do v <-- find reg; ret (cell_ v).

(** [const Attributes& attributes(const RegionID reg) const] *)
Definition attributes (reg : RegionId) : M AttributeMap Attributes :=
  do v <-- find reg; ret (attr_ v).

(** A write through the reference that [Attributes& attributes(reg)] gave. *)
Definition assign_attributes (reg : RegionId) (a : Attributes)
    : M AttributeMap unit :=
  fun m =>
    match lookup m reg with
    | None => (Throw (invalid_argument "Unknown region ID"), m)
    | Some v => (Ok tt, store m reg (mkValue a (cell_ v)))
    end.

End RegionAttributes.

End Details.

(** *** The class [SurfaceToReservoirVoidage<Property, Region>] *)

Section SurfaceToReservoirVoidage.

Variable F : realFieldType.

(** The value of a quotient whose divisor is zero. *)
Variable div0 : F -> F.

(** [x / y] on [double]. *)
Definition fdiv (x y : F) : F := if y == 0 then div0 x else x / y.

(** [std::min(a, b)]: [(b < a) ? b : a]. *)
Definition std_min (a b : F) : F := if b < a then b else a.

(** [std::abs] *)
Definition std_abs (x : F) : F := `|x|.

(** [v[i]] for a vector of [double] and an [int] index. *)
Definition at_ (v : seq F) (i : int) : F :=
  if i is Posz n then nth 0 v n else 0.

(** [v[i] = y] *)
Definition set_at (v : seq F) (i : int) (y : F) : seq F :=
  if i is Posz n then set_nth 0 v n y else v.

(** [std::fill(& coeff[0], & coeff[0] + np, 0.0)] *)
Definition fill_zero (np : nat) (coeff : seq F) : seq F :=
  nseq np 0 ++ drop np coeff.

(** The fluid property object ([Property], in the style of
    [BlackoilPropsAdInterface]); the one-element [V], [ADB] and [Cells]
    arguments are the number and the cell they hold. *)
Record Property := mkProperty {
  numPhases : nat;
  phaseUsage : PhaseUsage;
  bWat : F -> F -> int -> F;
  bOil : F -> F -> F -> PhasePresence -> int -> F;
  bGas : F -> F -> F -> PhasePresence -> int -> F;
  rsSat : F -> F -> int -> F;
  rvSat : F -> F -> int -> F
}.

(** [BlackoilState], as far as [defineState] reads it. *)
Record BlackoilState := mkBlackoilState {
  state_pressure : seq F;
  state_temperature : seq F
}.

(** [struct Attributes { double pressure; double temperature;
    Eigen::ArrayXd Rmax; }] *)
Record Attributes := mkAttributes {
  pressure : F;
  temperature : F;
  Rmax : seq F
}.

(** [Attributes(const int np)] *)
Definition Attributes_init (np : nat) : Attributes :=
  mkAttributes 0 0 (nseq np 0).

(** [struct Miscibility { V rs; V rv; std::vector<PhasePresence> cond; }],
    each of length one. *)
Record Miscibility := mkMiscibility {
  rs : F;
  rv : F;
  cond : PhasePresence
}.

(** [Miscibility()] *)
Definition Miscibility_init : Miscibility := mkMiscibility 0 0 noPhase.

(** The mutable part of the object is [attr_]; [props_] and [rmap_] are
    fixed at construction. *)
Definition Self := Details.AttributeMap Attributes.

Variable props_ : Property.
Variable rmap_ : RegionMapping.

(** [SurfaceToReservoirVoidage(const Property& props, const Region& region)] *)
Definition SurfaceToReservoirVoidage : result Self :=
  Details.RegionAttributes rmap_ (Attributes_init (numPhases props_)).

(** [getRegCell(const RegionId r) const] *)
Definition getRegCell (r : RegionId) : M Self int :=
  Details.cell r.

(** The inner loop of [calcAverages]: the sums [p], [T] and the count [n]
    over the cells of one region. *)
Definition accumulate (is_parallel : bool) (press temp ownerShip : seq F)
    (cs : seq nat) : F * F * nat :=
  foldl (fun acc c =>
           let: (p, T, n) := acc in
           let: (dp, dT, dn) :=
             Details.AverageIncrementCalculator is_parallel
               press temp ownerShip c in
           (p + dp, T + dT, (n + dn)%N))
        (0, 0, 0%N) cs.

(** [template<bool is_parallel> void calcAverages(state, info, ownerShip)],
    without the reduction over processes that [HAVE_MPI] adds. *)
Definition calcAverages (is_parallel : bool) (state : BlackoilState)
    (ownerShip : seq F) : M Self unit :=
  let press := state_pressure state in
  let temp := state_temperature state in
  for_each (activeRegions rmap_) (fun reg =>
    do ra <-- Details.attributes reg;
    let: (p, T, n) :=
      accumulate is_parallel press temp ownerShip (cells rmap_ reg) in
    let global_n := n in
    let global_p := p in
    let global_T := T in
    Details.assign_attributes reg
      (mkAttributes (fdiv global_p global_n%:R) (fdiv global_T global_n%:R)
                    (Rmax ra))).

(** [void calcRmax()] *)
Definition calcRmax : M Self unit :=
  let pu := phaseUsage props_ in
  if Details.PhaseUsed.oil pu && Details.PhaseUsed.gas pu then
    let io := Details.PhasePos.oil pu in
    let ig := Details.PhasePos.gas pu in
    for_each (activeRegions rmap_) (fun reg =>
      do ra <-- Details.attributes reg;
      do c <-- getRegCell reg;
      let p := pressure ra in
      let T := temperature ra in
      let Rmax1 := set_at (Rmax ra) io (rsSat props_ p T c) in
      let Rmax2 := set_at Rmax1 ig (rvSat props_ p T c) in
      Details.assign_attributes reg
        (mkAttributes (pressure ra) (temperature ra) Rmax2))
  else ret tt.

(** [void defineState(const BlackoilState& state, const boost::any& info)],
    the branch taken when [info] holds no [ParallelISTLInformation]. *)
Definition defineState (state : BlackoilState) : M Self unit :=
  let dummyOwnership : seq F := [::] in
  calcAverages false state dummyOwnership ;;
  calcRmax.

(** [Miscibility calcMiscibility(const Input& in, const RegionId r) const] *)
Definition calcMiscibility (input : seq F) (r : RegionId) : M Self Miscibility :=
  let pu := phaseUsage props_ in
  do attr <-- Details.attributes r;
  let io := Details.PhasePos.oil pu in
  let ig := Details.PhasePos.gas pu in
  let m := Miscibility_init in
  let m :=
    if Details.PhaseUsed.water pu
    then mkMiscibility (rs m) (rv m) (setFreeWater (cond m)) else m in
  let m :=
    if Details.PhaseUsed.oil pu then
      let m := mkMiscibility (rs m) (rv m) (setFreeOil (cond m)) in
      if Details.PhaseUsed.gas pu then
        let rsmax := at_ (Rmax attr) io in
        let rs_ :=
          if 0 < std_abs (at_ input io)
          then fdiv (at_ input ig) (at_ input io)
          else if 0 < std_abs (at_ input ig) then rsmax else 0 in
        let m :=
          if rsmax < rs_
          then mkMiscibility (rs m) (rv m) (setFreeGas (cond m)) else m in
        mkMiscibility (std_min rs_ rsmax) (rv m) (cond m)
      else m
    else m in
  let m :=
    if Details.PhaseUsed.gas pu then
      let m :=
        if ~~ Details.PhaseUsed.oil pu
        then mkMiscibility (rs m) (rv m) (setFreeGas (cond m)) else m in
      if Details.PhaseUsed.oil pu then
        let rvmax := at_ (Rmax attr) ig in
        let rv_ :=
          if 0 < std_abs (at_ input ig)
          then fdiv (at_ input io) (at_ input ig)
          else if 0 < std_abs (at_ input io) then rvmax else 0 in
        mkMiscibility (rs m) (std_min rv_ rvmax) (cond m)
      else m
    else m in
  ret m.

(** [const double detR = 1.0 - (m.rs(0) * m.rv(0));]  Where neither ratio
    is capped the two factors are the quotients [gas/oil] and [oil/gas]:
    their product is 1 in the field, and on [double] it is 1 only when both
    quotients are exact, as they are for the rates 50 and 25. *)
Definition detR (m : Miscibility) : F := 1 - rs m * rv m.

(** [void calcCoeff(const Input& in, const RegionId r, Coeff& coeff) const]:
    the caller's [coeff] goes in, the written [coeff] comes out. *)
Definition calcCoeff (input : seq F) (r : RegionId) (coeff : seq F)
    : M Self (seq F) :=
  let pu := phaseUsage props_ in
  do ra <-- Details.attributes r;
  let p := pressure ra in
  let T := temperature ra in
  do c <-- getRegCell r;
  let iw := Details.PhasePos.water pu in
  let io := Details.PhasePos.oil pu in
  let ig := Details.PhasePos.gas pu in
  let coeff := fill_zero (numPhases props_) coeff in
  let coeff :=
    if Details.PhaseUsed.water pu then
      let bw := bWat props_ p T c in
      set_at coeff iw (fdiv 1 bw)
    else coeff in
  do m <-- calcMiscibility input r;
  let detR := detR m in
  let coeff :=
    if Details.PhaseUsed.oil pu then
      let bo := bOil props_ p T (rs m) (cond m) c in
      let den := bo * detR in
      let coeff := set_at coeff io (at_ coeff io + fdiv 1 den) in
      if Details.PhaseUsed.gas pu
      then set_at coeff ig (at_ coeff ig - fdiv (rv m) den)
      else coeff
    else coeff in
  let coeff :=
    if Details.PhaseUsed.gas pu then
      let bg := bGas props_ p T (rv m) (cond m) c in
      let den := bg * detR in
      let coeff := set_at coeff ig (at_ coeff ig + fdiv 1 den) in
      if Details.PhaseUsed.oil pu
      then set_at coeff io (at_ coeff io - fdiv (rs m) den)
      else coeff
    else coeff in
  ret coeff.

End SurfaceToReservoirVoidage.

(** *** Derived notions used to state the properties *)

Section Notions.

Variable F : realFieldType.

(** "RSmax" and "RVmax" of a region: the entries of [Rmax] at the positions
    of oil and of gas. *)
Definition RSmax (pu : PhaseUsage) (ra : Attributes F) : F :=
  at_ (Rmax ra) (Details.PhasePos.oil pu).
Definition RVmax (pu : PhaseUsage) (ra : Attributes F) : F :=
  at_ (Rmax ra) (Details.PhasePos.gas pu).

(** The arithmetic mean of the values of [xs] at the cells [cs]. *)
Definition mean (xs : seq F) (cs : seq nat) : F :=
  (\sum_(c <- cs) nth 0 xs c) / (size cs)%:R.

(** The position of water is a valid index and is not the position of
    another phase. *)
Definition water_pos_ok (pu : PhaseUsage) : bool :=
  [&& 0 <= Details.PhasePos.water pu,
      Details.PhasePos.water pu != Details.PhasePos.oil pu
    & Details.PhasePos.water pu != Details.PhasePos.gas pu].

(** Two property objects that cannot be told apart by formation volume
    factors taken at pressure [p] and temperature [T]. *)
Definition same_fvf_at (p T : F) (props props' : Property F) : Prop :=
  [/\ numPhases props' = numPhases props,
      phaseUsage props' = phaseUsage props,
      forall c, bWat props' p T c = bWat props p T c,
      forall r cnd c, bOil props' p T r cnd c = bOil props p T r cnd c
    & forall r cnd c, bGas props' p T r cnd c = bGas props p T r cnd c].

(** The states a converter can be in: freshly constructed, or after a call
    of [defineState] that returned. *)
Inductive reachable (div0 : F -> F) (props : Property F) (rmap : RegionMapping)
    : Self F -> Prop :=
  | reach_new st :
      SurfaceToReservoirVoidage props rmap = Ok st ->
      reachable div0 props rmap st
  | reach_defineState st state st' :
      reachable div0 props rmap st ->
      defineState div0 props rmap state st = (Ok tt, st') ->
      reachable div0 props rmap st'.

End Notions.

(** *** Auxiliary notions on attribute maps *)

Section MapNotions.

Variable Attributes : Type.

(** The regions an attribute map knows. *)
Definition keys (m : Details.AttributeMap Attributes) : seq RegionId :=
  [seq kv.1 | kv <- m].

(** The entry of [reg] after its attributes were replaced by [f reg v],
    where [v] is the entry before. *)
Definition updated (f : RegionId -> Details.Value Attributes -> Attributes)
    (reg : RegionId) (v : Details.Value Attributes)
    : Details.Value Attributes :=
  Details.mkValue (f reg v) (Details.cell_ v).

(** Read the entry of [reg] and write new attributes through the reference:
    the shape of one turn of the loops of [calcAverages] and [calcRmax]. *)
Definition update_value (f : RegionId -> Details.Value Attributes -> Attributes)
    (reg : RegionId) : M (Details.AttributeMap Attributes) unit :=
  fun m =>
    match Details.lookup m reg with
    | None => (Throw (invalid_argument "Unknown region ID"), m)
    | Some v => (Ok tt, Details.store m reg (updated f reg v))
    end.

End MapNotions.

Section LoopBodies.

Variable F : realFieldType.
Variable div0 : F -> F.

(** The attributes [calcAverages] leaves for [reg], from the entry [v]
    found there. *)
Definition averaged (rmap : RegionMapping) (state : BlackoilState F)
    (reg : RegionId) (v : Details.Value (Attributes F)) : Attributes F :=
  let: (p, T, n) :=
    accumulate false (state_pressure state) (state_temperature state) [::]
      (cells rmap reg) in
  mkAttributes (fdiv div0 p n%:R) (fdiv div0 T n%:R) (Rmax (Details.attr_ v)).

(** The attributes [calcRmax] leaves for [reg], from the entry [v] found
    there, when oil and gas are active. *)
Definition saturated (props : Property F)
    (reg : RegionId) (v : Details.Value (Attributes F)) : Attributes F :=
  let pu := phaseUsage props in
  let ra := Details.attr_ v in
  let c := Details.cell_ v in
  let Rmax1 :=
    set_at (Rmax ra) (Details.PhasePos.oil pu)
      (rsSat props (pressure ra) (temperature ra) c) in
  mkAttributes (pressure ra) (temperature ra)
    (set_at Rmax1 (Details.PhasePos.gas pu)
       (rvSat props (pressure ra) (temperature ra) c)).

End LoopBodies.

(** *** Concrete data over the rationals *)

Module Example.

(** Oil at position 0, gas at position 1, no water. *)
Definition pu_oil_gas : PhaseUsage :=
  mkPhaseUsage
    (fun ph => match ph with Aqua => 0 | _ => 1 end)
    (fun ph => match ph with Aqua => -1 | Liquid => 0 | Vapour => 1 end).

(** Water, oil and gas at positions 0, 1, 2. *)
Definition pu_three_phase : PhaseUsage :=
  mkPhaseUsage
    (fun _ => 1)
    (fun ph => match ph with Aqua => 0 | Liquid => 1 | Vapour => 2 end).

Definition div0_rat : rat -> rat := fun _ => 0.

(** Fluid properties that do not depend on pressure, temperature or cell:
    formation volume factors [bw], 1 and 1, saturated ratios [rsmax] and
    [rvmax]. *)
Definition props_const (pu : PhaseUsage) (np : nat) (bw rsmax rvmax : rat)
    : Property rat :=
  mkProperty np pu
    (fun _ _ _ => bw) (fun _ _ _ _ _ => 1) (fun _ _ _ _ _ => 1)
    (fun _ _ _ => rsmax) (fun _ _ _ => rvmax).

Definition props_two_phase (rsmax rvmax : rat) : Property rat :=
  props_const pu_oil_gas 2 1 rsmax rvmax.

Definition props_three_phase : Property rat :=
  props_const pu_three_phase 3 2 (3 / 5) (1 / 10).

(** Region 0 with the cells 0 and 1, and no other region. *)
Definition rmap_single : RegionMapping :=
  mkRegionMapping [:: 0] (fun r => if r == 0 then [:: 0%N; 1%N] else [::]).

(** Cell pressures 100 and 200, cell temperatures 300 and 310. *)
Definition state_two_cells : BlackoilState rat :=
  mkBlackoilState [:: 100; 200] [:: 300; 310].

(** The converter of [rmap_single] right after construction. *)
Definition fresh (np : nat) : Self rat :=
  [:: (0, Details.mkValue (Attributes_init rat np) 0)].

(** The converter after construction and one [defineState]. *)
Definition converter (props : Property rat) : option (Self rat) :=
  match SurfaceToReservoirVoidage props rmap_single with
  | Ok st0 =>
      match defineState div0_rat props rmap_single state_two_cells st0 with
      | (Ok _, st1) => Some st1
      | (Throw _, _) => None
      end
  | Throw _ => None
  end.

(** A converter state whose only region, 0, has pressure 150, temperature
    305, representative cell 0 and the given [Rmax]. *)
Definition value_with_Rmax (rmax : seq rat)
    : Details.Value (Attributes rat) :=
  Details.mkValue (mkAttributes 150 305 rmax) 0.

Definition state_with_Rmax (rmax : seq rat) : Self rat :=
  [:: (0, value_with_Rmax rmax)].

(** Surface rates oil = 50, gas = 25; and all rates zero. *)
Definition rates_50_25 : seq rat := [:: 50; 25].
Definition rates_zero : seq rat := [:: 0; 0].

(** The matrix with the given rows. *)
Definition of_rows (m n : nat) (rows : seq (seq rat)) : 'M[rat]_(m, n) :=
  \matrix_(i, j) nth 0 (nth [::] rows i) j.

(** A well with one segment of two well equations on one cell with one
    reservoir equation: [B = (3; 1)], [duneC_ = (5; 7)],
    [D = (2 1; 1 1)] and [resWell = (8; 4)]. *)
Definition small_well : SchurCoupler.Well rat 1 2 1 1 :=
  SchurCoupler.mkWell (numEq := 1) (numWellEq := 2) (num_cells := 1)
    (number_segments := 1)
    (of_rows _ _ [:: [:: 3]; [:: 1]]) (of_rows _ _ [:: [:: 5]; [:: 7]])
    (of_rows _ _ [:: [:: 2; 1]; [:: 1; 1]]) (of_rows _ _ [:: [:: 8]; [:: 4]]).

(** The reservoir increment [(1)] and the well increment [(2; 1)]. *)
Definition small_x : SchurCoupler.BVector rat 1 1 := of_rows _ _ [:: [:: 1]].
Definition small_xw : SchurCoupler.BVectorWell rat 2 1 :=
  of_rows _ _ [:: [:: 2]; [:: 1]].

End Example.

(** *** Further notions: phase positions, ownership, the defined state *)

Section FurtherNotions.

Variable F : realFieldType.
Variable div0 : F -> F.

(** [i] is an index into an array of [np] entries. *)
Definition in_range (np : nat) (i : int) : bool :=
  if i is Posz n then (n < np)%N else false.

(** The active phases of [props] have positions inside [0, numPhases) that
    differ from each other. *)
Definition wf_phases (props : Property F) : bool :=
  let pu := phaseUsage props in
  let np := numPhases props in
  let w := Details.PhaseUsed.water pu in
  let o := Details.PhaseUsed.oil pu in
  let g := Details.PhaseUsed.gas pu in
  let iw := Details.PhasePos.water pu in
  let io := Details.PhasePos.oil pu in
  let ig := Details.PhasePos.gas pu in
  [&& w ==> in_range np iw, o ==> in_range np io, g ==> in_range np ig,
      (w && o) ==> (iw != io), (w && g) ==> (iw != ig)
    & (o && g) ==> (io != ig)].

(** The cells of [cs] that [ownership] marks as owned by this process. *)
Definition owned (ownership : seq F) (cs : seq nat) : seq nat :=
  [seq c <- cs | nth 0 ownership c != 0].

(** The entry a fresh converter holds for region [r]. *)
Definition fresh_value (props : Property F) (rmap : RegionMapping)
    (r : RegionId) : Details.Value (Attributes F) :=
  Details.mkValue (Attributes_init F (numPhases props))
                  (Posz (head 0%N (cells rmap r))).

(** The entry of [reg] after [defineState], from the entry [v] before:
    [calcAverages] first, then [calcRmax] where oil and gas are active. *)
Definition defined_value (props : Property F) (rmap : RegionMapping)
    (state : BlackoilState F) (reg : RegionId)
    (v : Details.Value (Attributes F)) : Details.Value (Attributes F) :=
  let pu := phaseUsage props in
  let v1 := updated (averaged div0 rmap state) reg v in
  if Details.PhaseUsed.oil pu && Details.PhaseUsed.gas pu
  then updated (saturated props) reg v1 else v1.

(** A map with the entries of the regions [regs] rewritten by [g]. *)
Definition rewritten (regs : seq RegionId)
    (g : RegionId -> Details.Value (Attributes F)
         -> Details.Value (Attributes F))
    (st : Self F) : Self F :=
  [seq if kv.1 \in regs then (kv.1, g kv.1 kv.2) else kv | kv <- st].

End FurtherNotions.

(** *** More concrete data: water and oil without gas *)

Module DeadOil.

(** Water at position 0, oil at position 1, no gas. *)
Definition pu_water_oil : PhaseUsage :=
  mkPhaseUsage
    (fun ph => match ph with Vapour => 0 | _ => 1 end)
    (fun ph => match ph with Aqua => 0 | Liquid => 1 | Vapour => -1 end).

(** [bw = 2], [bo = 4], saturated ratios 7 and 9 that are never used. *)
Definition props_water_oil : Property rat :=
  mkProperty 2 pu_water_oil
    (fun _ _ _ => 2) (fun _ _ _ _ _ => 4) (fun _ _ _ _ _ => 1)
    (fun _ _ _ => 7) (fun _ _ _ => 9).

(** A region mapping with an active region, 3, that has no cell. *)
Definition rmap_empty_region : RegionMapping :=
  mkRegionMapping [:: 0; 3]
    (fun r => if r == 0 then [:: 0%N; 1%N] else [::]).

End DeadOil.

(** *** More concrete data: properties that vary with pressure and
    temperature *)

Module Compressible.

(** Three phases with [bw = p/100 + T/610], [bo = p/150], [bg = T/305] and
    saturated ratios 0.6 and 0.1: at pressure 150 and temperature 305 the
    factors are 2, 1 and 1, and at no cell value of
    [Example.state_two_cells] are they. *)
Definition props_compressible : Property rat :=
  mkProperty 3 Example.pu_three_phase
    (fun p T _ => p / 100 + T / 610)
    (fun p _ _ _ _ => p / 150) (fun _ T _ _ _ => T / 305)
    (fun _ _ _ => 3 / 5) (fun _ _ _ => 1 / 10).

End Compressible.

(** ** Properties of the primary-variable layout *)

Section LayoutFacts.

Import MultisegmentWell.

Lemma numWellEq_no_polymer (tt : TypeTag) :
  EnablePolymer tt = false -> numWellEq tt = numEq tt + 1.
Proof. by rewrite /numWellEq => ->. Qed.

Lemma tuple_gas_oil (tt : TypeTag) :
  EnablePolymer tt = false -> gasoil tt ->
  primary_variable_tuple tt = [:: Some PV_GTotal; Some PV_GFrac; Some PV_SPres].
Proof.
move=> nopoly go; rewrite /primary_variable_tuple /variable_at /index_of.
rewrite /numWellEq nopoly /GTotal /WFrac /GFrac /SPres go.
by case/andP: go => /eqP -> _.
Qed.

Lemma tuple_three_phase (tt : TypeTag) :
  EnablePolymer tt = false -> three_phase tt ->
  primary_variable_tuple tt =
    [:: Some PV_GTotal; Some PV_WFrac; Some PV_GFrac; Some PV_SPres].
Proof.
move=> nopoly /eqP n3; rewrite /primary_variable_tuple /variable_at /index_of.
by rewrite /numWellEq nopoly /GTotal /WFrac /GFrac /SPres /gasoil n3.
Qed.

(** C6.  With polymer disabled, a segment has [numEq + 1] well equations
    and primary variables; in the gas/oil two-phase and in the three-phase
    configuration the tuple is, in order, the total rate [GTotal] at index
    0, the fraction variables (only [GFrac] in gas/oil, [WFrac] then
    [GFrac] in three-phase) and the segment pressure [SPres] at the last
    index. *)
Theorem primary_variable_layout (tt : TypeTag) :
  EnablePolymer tt = false ->
  gas_oil_two_phase tt || three_phase tt ->
  [/\ numWellEq tt = numEq tt + 1,
      GTotal = 0,
      SPres tt = numWellEq tt - 1
    & primary_variable_tuple tt =
        Some PV_GTotal
        :: (if gas_oil_two_phase tt
            then [:: Some PV_GFrac]
            else [:: Some PV_WFrac; Some PV_GFrac])
        ++ [:: Some PV_SPres]].
Proof.
move=> nopoly cfg; split=> //; first exact: numWellEq_no_polymer.
- rewrite /SPres /numWellEq nopoly; case: ifP cfg => [/andP[/eqP -> _] //|go /=].
  by rewrite /three_phase /gas_oil_two_phase go /= => /eqP ->.
- rewrite /gas_oil_two_phase in cfg *; case: ifP cfg => [go _|_ /= tp].
    exact: tuple_gas_oil.
  exact: tuple_three_phase.
Qed.

(** The layout at the three-phase black-oil configuration. *)
Lemma primary_variable_layout_witness :
  let tt := mkTypeTag 3 1 false in
  [/\ numWellEq tt = numEq tt + 1,
      GTotal = 0,
      SPres tt = numWellEq tt - 1
    & primary_variable_tuple tt =
        [:: Some PV_GTotal; Some PV_WFrac; Some PV_GFrac; Some PV_SPres]].
Proof.
exact: (@primary_variable_layout (mkTypeTag 3 1 false) (erefl _) (erefl _)).
Defined.

End LayoutFacts.

(** ** Properties of the well recovery *)

Section CouplerFacts.

Import SchurCoupler.

Variable F : fieldType.
Variables (numEq numWellEq num_cells number_segments : nat).

Local Notation Well := (Well F numEq numWellEq num_cells number_segments).
Local Notation BVector := (BVector F numEq num_cells).
Local Notation BVectorWell := (BVectorWell F numWellEq number_segments).

Implicit Types (w : Well) (x : BVector) (xw : BVectorWell).

Lemma solve_unique w (b xw : BVectorWell) :
  D w \in unitmx -> (xw = invmx (D w) *m b) <-> (D w *m xw = b).
Proof.
move=> Dunit; split=> [->|<-]; first by rewrite mulKVmx.
by rewrite mulKmx.
Qed.

(** C1.  When [D] is invertible, the well increment that
    [recoverSolutionWell] returns for [x] satisfies
    [D xw = resWell - B x], it closes the well row [B x + D xw = resWell]
    of the coupled system, and it is the only vector that does. *)
Theorem recover_round_trip w x :
  D w \in unitmx ->
  [/\ D w *m recoverSolutionWell w x = resWell w - B w *m x,
      B w *m x + D w *m recoverSolutionWell w x = resWell w
    & forall xw,
        D w *m xw = resWell w - B w *m x -> xw = recoverSolutionWell w x].
Proof.
move=> Dunit.
have round : D w *m recoverSolutionWell w x = resWell w - B w *m x.
  exact/(solve_unique _ _ Dunit).
split=> // [|xw eq_xw]; first by rewrite round addrC subrK.
exact/(solve_unique _ _ Dunit).
Qed.

End CouplerFacts.

(** The recovery at a well with two well equations. *)

Section CouplerInstance.

Import SchurCoupler Example.

Ltac entries :=
  apply/matrixP => i j; rewrite !mxE !big_ord_recl !big_ord0;
  rewrite /D /B /resWell /small_well /small_xw /small_x /= /of_rows !mxE /=.

Lemma small_well_unit : D small_well \in unitmx.
Proof.
have [] // := @mulmx1_unit _ _ (D small_well)
                (of_rows _ _ [:: [:: 1; -1]; [:: -1; 2]]).
entries.
by case: i => [[|[|i]] lt_i] //=; case: j => [[|[|j]] lt_j] //=; vm_compute.
Qed.

Lemma small_well_row :
  D small_well *m small_xw = resWell small_well - B small_well *m small_x.
Proof.
entries.
by case: i => [[|[|i]] lt_i] //=; case: j => [[|j] lt_j] //=; vm_compute.
Qed.

(** For [x = (1)] the recovered increment is [(2; 1)]:
    [D (2; 1) = (5; 3) = (8; 4) - (3; 1)]. *)
Lemma recover_round_trip_witness :
  D small_well \in unitmx /\
  [/\ D small_well *m recoverSolutionWell small_well small_x =
        resWell small_well - B small_well *m small_x,
      B small_well *m small_x + D small_well *m small_xw = resWell small_well
    & recoverSolutionWell small_well small_x = small_xw].
Proof.
split; first exact: small_well_unit.
have [round row only] := recover_round_trip small_x small_well_unit.
have xwE := only small_xw small_well_row.
by split; [exact: round | rewrite xwE; exact: row | rewrite -xwE].
Defined.

(** With [duneC_] in the place of [B], as the comment above the declaration
    reads, the vector would be another one: [(6; -9)] at this well. *)
Remark recover_uses_B :
  invmx (D small_well) *m (resWell small_well - duneC_ small_well *m small_x)
    <> recoverSolutionWell small_well small_x.
Proof.
have <- : small_xw = recoverSolutionWell small_well small_x.
  exact/(solve_unique _ _ small_well_unit)/small_well_row.
move=> eq_xw.
have := congr1 (mulmx (D small_well)) eq_xw.
rewrite (mulKVmx small_well_unit) => /matrixP/(_ ord0 ord0).
rewrite !mxE !big_ord_recl !big_ord0.
rewrite /D /resWell /small_well /small_xw /small_x /= /of_rows !mxE /=.
by move/eqP; vm_compute.
Qed.

End CouplerInstance.

(** ** Properties of the rate converter *)

Section NumberFacts.

Variable F : realFieldType.
Variable div0 : F -> F.

Lemma std_minE (a b : F) : std_min a b = Num.min a b.
Proof.
by rewrite /std_min /Num.min; case: (ltrgtP a b).
Qed.

Lemma std_min_le_r (a b : F) : std_min a b <= b.
Proof. by rewrite std_minE ge_min lexx orbT. Qed.

Lemma std_min_id (a : F) : std_min a a = a.
Proof. by rewrite /std_min ltxx. Qed.

Lemma std_abs_gt0 (x : F) : (0 < std_abs x) = (x != 0).
Proof. by rewrite /std_abs normr_gt0. Qed.

Lemma fdiv_neq0 (x y : F) : y != 0 -> fdiv div0 x y = x / y.
Proof. by rewrite /fdiv => /negbTE ->. Qed.

End NumberFacts.

Section MonadFacts.

Variables (S A : Type).

Lemma eq_for_each (xs : seq A) (body body' : A -> M S unit) :
  (forall x s, body x s = body' x s) ->
  forall s, for_each xs body s = for_each xs body' s.
Proof.
move=> eq_body; elim: xs => [|x xs IH] s //=.
by rewrite /bind eq_body; case: (body' x s) => [[[]|e] s'].
Qed.

End MonadFacts.

Section RegionAttributesFacts.

Import Details.

Variable Attributes : Type.

Implicit Types (m st : AttributeMap Attributes) (r reg : RegionId).
Implicit Types (v : Value Attributes).

Lemma lookup_keys m r : isSome (lookup m r) = (r \in keys m).
Proof.
elim: m => [|[k v] m IH] //=; rewrite in_cons eq_sym.
by case: eqP.
Qed.

Lemma lookup_None m r : lookup m r = None -> r \notin keys m.
Proof. by rewrite -lookup_keys => ->. Qed.

Lemma lookup_Some m r : r \in keys m -> exists v, lookup m r = Some v.
Proof. by rewrite -lookup_keys; case: (lookup m r) => // v _; exists v. Qed.

Lemma lookup_rcons m r v r' :
  lookup (rcons m (r, v)) r' =
    if lookup m r' is Some v' then Some v'
    else if r == r' then Some v else None.
Proof. by elim: m => [|[k v0] m IH] //=; case: eqP. Qed.

Lemma keys_rcons m r v : keys (rcons m (r, v)) = rcons (keys m) r.
Proof. by rewrite /keys map_rcons. Qed.

Lemma lookup_store m r v r' :
  lookup (store m r v) r' = if r == r' then Some v else lookup m r'.
Proof.
elim: m => [|[k v0] m IH] //=.
case: (eqVneq k r) => [->|k_r] /=; first by case: eqP.
by rewrite IH; case: (eqVneq k r') => // kr'; rewrite -kr' eq_sym (negbTE k_r).
Qed.

Lemma keys_store m r v : r \in keys m -> keys (store m r v) = keys m.
Proof.
elim: m => [|[k v0] m IH] //=; rewrite in_cons.
case: (eqVneq k r) => [->|k_r] //=.
by move=> /IH ->.
Qed.

Lemma find_known st r v : lookup st r = Some v -> find r st = (Ok v, st).
Proof. by rewrite /find => ->. Qed.

Lemma find_unknown st r :
  lookup st r = None ->
  find r st = (Throw (invalid_argument "Unknown region ID"), st).
Proof. by rewrite /find => ->. Qed.

Lemma attributes_known st r v :
  lookup st r = Some v -> attributes r st = (Ok (attr_ v), st).
Proof. by move=> known; rewrite /attributes /bind (find_known known). Qed.

Lemma attributes_unknown st r :
  lookup st r = None ->
  attributes r st = (Throw (invalid_argument "Unknown region ID"), st).
Proof. by move=> unknown; rewrite /attributes /bind (find_unknown unknown). Qed.

Lemma cell_known st r v :
  lookup st r = Some v -> cell r st = (Ok (cell_ v), st).
Proof. by move=> known; rewrite /cell /bind (find_known known). Qed.

Lemma cell_unknown st r :
  lookup st r = None ->
  cell r st = (Throw (invalid_argument "Unknown region ID"), st).
Proof. by move=> unknown; rewrite /cell /bind (find_unknown unknown). Qed.

(** The loop over regions that rewrites the attributes of each. *)
Lemma for_each_update (I : RegionId -> Value Attributes -> Prop)
    (f : RegionId -> Value Attributes -> Attributes) regs st :
  (forall r v, I r v -> I r (updated f r v)) ->
  {subset regs <= keys st} ->
  (forall r v, lookup st r = Some v -> I r v) ->
  exists st',
    [/\ for_each regs (update_value f) st = (Ok tt, st'),
        keys st' = keys st,
        forall r v, lookup st' r = Some v -> I r v,
        forall r, r \notin regs -> lookup st' r = lookup st r
      & forall r, r \in regs ->
          exists2 v0, I r v0 & lookup st' r = Some (updated f r v0)].
Proof.
move=> f_inv; elim: regs st => [|r0 regs IH] st sub inv_st.
  by exists st; split.
have /lookup_Some[v0 st_r0] : r0 \in keys st by apply: sub; rewrite mem_head.
pose st1 := store st r0 (updated f r0 v0).
have keys1 : keys st1 = keys st.
  by apply: keys_store; rewrite -lookup_keys st_r0.
have sub1 : {subset regs <= keys st1}.
  by move=> r r_regs; rewrite keys1; apply: sub; rewrite in_cons r_regs orbT.
have inv1 r v : lookup st1 r = Some v -> I r v.
  rewrite lookup_store; case: eqP => [<- [<-]|_]; last exact: inv_st.
  exact/f_inv/inv_st.
have [st' [run keys' inv' out' in']] := IH st1 sub1 inv1.
exists st'; split=> //.
- by rewrite /= /bind /update_value st_r0.
- by rewrite keys'.
- move=> r; rewrite in_cons negb_or => /andP[r_r0 /out' ->].
  by rewrite lookup_store eq_sym (negbTE r_r0).
- move=> r; rewrite in_cons; case: (boolP (r \in regs)) => [/in' //|r_regs].
  rewrite orbF => /eqP r_r0; rewrite {r}r_r0 in r_regs *.
  exists v0; first exact: inv_st.
  by rewrite out' // lookup_store eqxx.
Qed.

(** What a successful run of the constructor's loop leaves. *)
Lemma for_each_insert rmap attr regs m m' :
  for_each regs (insert_region rmap attr) m = (Ok tt, m') ->
  [/\ keys m' =i keys m ++ regs
    & forall r, r \in regs -> r \in keys m \/ cells rmap r <> [::]].
Proof.
elim: regs m => [|r0 regs IH] m /=; first by case=> <-; split=> // r; rewrite cats0.
rewrite /bind {1}/insert_region.
case m_r0: (lookup m r0) => [v|].
  have r0_m : r0 \in keys m by rewrite -lookup_keys m_r0.
  move=> /IH[keys' nonempty]; split=> [r|r].
    rewrite keys' !mem_cat in_cons; case: (eqVneq r r0) => [->|//].
    by rewrite r0_m.
  by rewrite in_cons => /orP[/eqP ->|/nonempty //]; left.
case cells_r0: (cells rmap r0) => [|c0 cs] //.
move=> /IH[keys' nonempty]; split=> [r|r].
  by rewrite keys' keys_rcons !mem_cat mem_rcons !in_cons orbA [(r \in _) || _]orbC.
rewrite in_cons => /orP[/eqP ->|/nonempty]; first by right; rewrite cells_r0.
rewrite keys_rcons mem_rcons in_cons => -[/orP[/eqP ->|]|]; [|by left|by right].
by right; rewrite cells_r0.
Qed.

Lemma RegionAttributes_Ok rmap attr st :
  RegionAttributes rmap attr = Ok st ->
  [/\ keys st =i activeRegions rmap
    & forall r, r \in activeRegions rmap -> cells rmap r <> [::]].
Proof.
rewrite /RegionAttributes.
case run: (for_each _ _ _) => [[[]|e] m] // [<-].
have [keys' nonempty] := for_each_insert run.
by split=> // r /nonempty[].
Qed.

End RegionAttributesFacts.

Section MiscibilityFacts.

Import Details.

Variable F : realFieldType.
Variable div0 : F -> F.
Variable props : Property F.

Local Notation pu := (phaseUsage props).
Local Notation io := (PhasePos.oil pu).
Local Notation ig := (PhasePos.gas pu).

Implicit Types (st : Self F) (input : seq F) (r : RegionId).
Implicit Types (v : Value (Attributes F)) (m : Miscibility F).

Lemma calcMiscibility_unknown st input r :
  lookup st r = None ->
  calcMiscibility div0 props input r st =
    (Throw (invalid_argument "Unknown region ID"), st).
Proof.
by move=> unknown; rewrite /calcMiscibility /bind (attributes_unknown unknown).
Qed.

Lemma calcMiscibility_known st input r v :
  lookup st r = Some v ->
  exists m, calcMiscibility div0 props input r st = (Ok m, st).
Proof.
move=> known; rewrite /calcMiscibility /bind (attributes_known known).
by eexists.
Qed.

(** The stored [rs] is the ratio of the rates, or its replacement at a
    zero oil rate, capped by "RSmax". *)
Lemma calcMiscibility_rs st input r v m :
  lookup st r = Some v -> PhaseUsed.oil pu -> PhaseUsed.gas pu ->
  calcMiscibility div0 props input r st = (Ok m, st) ->
  rs m =
    std_min
      (if 0 < std_abs (at_ input io)
       then fdiv div0 (at_ input ig) (at_ input io)
       else if 0 < std_abs (at_ input ig) then RSmax pu (attr_ v) else 0)
      (RSmax pu (attr_ v)).
Proof.
move=> known oil gas.
rewrite /calcMiscibility /bind (attributes_known known) /ret oil gas /=.
by case=> <-.
Qed.

Lemma calcMiscibility_rv st input r v m :
  lookup st r = Some v -> PhaseUsed.oil pu -> PhaseUsed.gas pu ->
  calcMiscibility div0 props input r st = (Ok m, st) ->
  rv m =
    std_min
      (if 0 < std_abs (at_ input ig)
       then fdiv div0 (at_ input io) (at_ input ig)
       else if 0 < std_abs (at_ input io) then RVmax pu (attr_ v) else 0)
      (RVmax pu (attr_ v)).
Proof.
move=> known oil gas.
rewrite /calcMiscibility /bind (attributes_known known) /ret oil gas /=.
by case=> <-.
Qed.

Lemma calcMiscibility_immiscible st input r m :
  ~~ (PhaseUsed.oil pu && PhaseUsed.gas pu) ->
  calcMiscibility div0 props input r st = (Ok m, st) ->
  rs m = 0 /\ rv m = 0.
Proof.
rewrite /calcMiscibility /bind /attributes /bind /find /ret.
case: (lookup st r) => [v|] //=.
by case: (PhaseUsed.oil pu); case: (PhaseUsed.gas pu) => //= _;
   case: (PhaseUsed.water pu) => /= -[<-].
Qed.

(** No quotient of [calcMiscibility] has a zero divisor: the value chosen
    for such quotients does not show in the result. *)
Lemma calcMiscibility_div0 (div0' : F -> F) st input r :
  calcMiscibility div0' props input r st = calcMiscibility div0 props input r st.
Proof.
have guarded (x y z : F) :
    (if 0 < std_abs y then fdiv div0' x y else z) =
    (if 0 < std_abs y then fdiv div0 x y else z).
  by rewrite std_abs_gt0; case: ifP => // y0; rewrite !fdiv_neq0.
rewrite /calcMiscibility /bind /attributes /bind /find /ret.
by case: (lookup st r) => [v|] //=; rewrite !guarded.
Qed.

End MiscibilityFacts.

Section MiscibilityClaims.

Import Details.

Variable F : realFieldType.
Variable div0 : F -> F.
Variable props : Property F.

Local Notation pu := (phaseUsage props).
Local Notation io := (PhasePos.oil pu).
Local Notation ig := (PhasePos.gas pu).

Implicit Types (st : Self F) (input : seq F) (r : RegionId).
Implicit Types (v : Value (Attributes F)) (m : Miscibility F).

(** C3.  In a known region and for every tuple of surface rates,
    [calcMiscibility] returns; when oil and gas are both active the [rs] it
    stores is at most the region's "RSmax" and the [rv] at most the
    region's "RVmax", and in every other phase configuration both stay at the
    zero of construction. *)
Theorem miscibility_capped st input r v :
  lookup st r = Some v ->
  exists m,
    calcMiscibility div0 props input r st = (Ok m, st) /\
    if PhaseUsed.oil pu && PhaseUsed.gas pu
    then rs m <= RSmax pu (attr_ v) /\ rv m <= RVmax pu (attr_ v)
    else rs m = 0 /\ rv m = 0.
Proof.
move=> known; have [m run] := calcMiscibility_known div0 props input known.
exists m; split=> //; case: ifP => [/andP[oil gas]|/negbT immiscible].
  rewrite (calcMiscibility_rs known oil gas run).
  by rewrite (calcMiscibility_rv known oil gas run) !std_min_le_r.
exact: calcMiscibility_immiscible immiscible run.
Qed.

(** C10, as the code has it.  With oil and gas active and the region known:
    at a zero oil rate [rs] is "RSmax" when the gas rate is not zero, and
    the smaller of 0 and "RSmax" when it is zero too, which is 0 as soon as
    "RSmax" is not negative; the same holds for [rv], "RVmax" and the roles
    of the two rates exchanged; and no quotient is taken by zero, whatever
    the rates. *)
Theorem miscibility_zero_rates st input r v :
  lookup st r = Some v -> PhaseUsed.oil pu -> PhaseUsed.gas pu ->
  exists m,
    [/\ calcMiscibility div0 props input r st = (Ok m, st),
        at_ input io = 0 ->
          rs m = (if at_ input ig == 0
                  then Num.min 0 (RSmax pu (attr_ v)) else RSmax pu (attr_ v))
          /\ (at_ input ig = 0 -> 0 <= RSmax pu (attr_ v) -> rs m = 0),
        at_ input ig = 0 ->
          rv m = (if at_ input io == 0
                  then Num.min 0 (RVmax pu (attr_ v)) else RVmax pu (attr_ v))
          /\ (at_ input io = 0 -> 0 <= RVmax pu (attr_ v) -> rv m = 0)
      & forall div0' : F -> F,
          calcMiscibility div0' props input r st = (Ok m, st)].
Proof.
move=> known oil gas.
have [m run] := calcMiscibility_known div0 props input known.
exists m; split=> // [oil0|gas0|div0'].
- rewrite (calcMiscibility_rs known oil gas run) oil0 !std_abs_gt0 eqxx /=.
  case: (eqVneq (at_ input ig) 0) => [_|/eqP gas_n0] /=; last first.
    by rewrite std_min_id; split.
  by rewrite std_minE; split=> // _ /min_idPl.
- rewrite (calcMiscibility_rv known oil gas run) gas0 !std_abs_gt0 eqxx /=.
  case: (eqVneq (at_ input io) 0) => [_|/eqP oil_n0] /=; last first.
    by rewrite std_min_id; split.
  by rewrite std_minE; split=> // _ /min_idPl.
- by rewrite (calcMiscibility_div0 div0).
Qed.

(** C2, as the code has it.  With oil and gas active, surface rates oil = 50
    and gas = 25, and "RSmax" = 0.6 in the region: [rs] is
    [min (25/50) 0.6 = 0.5] and [rv] is [min (50/25) RVmax], whatever
    "RVmax" is; when "RVmax" is below 2 the determinant [1 - rs rv] of
    [calcCoeff] is [1 - RVmax / 2 > 0], and the determinant is positive in
    that case only. *)
Theorem example_miscibility st input r v :
  lookup st r = Some v -> PhaseUsed.oil pu -> PhaseUsed.gas pu ->
  at_ input io = 50 -> at_ input ig = 25 ->
  RSmax pu (attr_ v) = 3 / 5 ->
  exists m,
    [/\ calcMiscibility div0 props input r st = (Ok m, st),
        rs m = Num.min (25 / 50) (3 / 5) /\ rs m = 1 / 2,
        rv m = Num.min (50 / 25) (RVmax pu (attr_ v)),
        RVmax pu (attr_ v) < 2 ->
          detR m = 1 - 1 / 2 * RVmax pu (attr_ v) /\ 0 < detR m
      & (0 < detR m) = (RVmax pu (attr_ v) < 2)].
Proof.
move=> known oil gas oil50 gas25 rsmax.
have [m run] := calcMiscibility_known div0 props input known.
have n0 (n : nat) : (n.+1%:R : F) != 0 by rewrite pnatr_eq0.
have half : (25 / 50 : F) = 1 / 2.
  have -> : (50 : F) = 25 * 2 by rewrite -natrM.
  by rewrite invfM mulrA divff.
have two : (50 / 25 : F) = 2.
  have -> : (50 : F) = 2 * 25 by rewrite -natrM.
  by rewrite mulfK.
have rsE : rs m = Num.min (25 / 50) (3 / 5).
  rewrite (calcMiscibility_rs known oil gas run) oil50 gas25 std_abs_gt0 n0.
  by rewrite fdiv_neq0 // std_minE rsmax.
have rvE : rv m = Num.min (50 / 25) (RVmax pu (attr_ v)).
  rewrite (calcMiscibility_rv known oil gas run) oil50 gas25 std_abs_gt0 n0.
  by rewrite fdiv_neq0 // std_minE.
have rs_half : rs m = 1 / 2.
  rewrite rsE half; apply/min_idPl.
  by rewrite ler_pdivrMr ?ltr0n // mulrAC ler_pdivlMr ?ltr0n // mul1r -natrM ler_nat.
have det_capped : RVmax pu (attr_ v) < 2 ->
    detR m = 1 - 1 / 2 * RVmax pu (attr_ v) /\ 0 < detR m.
  move=> rvmax_lt2.
  have rv_cap : rv m = RVmax pu (attr_ v).
    by rewrite rvE two; apply/min_idPr/ltW.
  rewrite /detR rs_half rv_cap; split=> //.
  by rewrite subr_gt0 mulrC mulrA ltr_pdivrMr ?ltr0n // mul1r mulr1.
exists m; split=> //.
case: (ltP (RVmax pu (attr_ v)) 2) => [/det_capped[] //|rvmax_ge2].
have rv_two : rv m = 2 by rewrite rvE two; apply/min_idPl.
by rewrite /detR rs_half rv_two mul1r mulVf ?n0 // subrr ltxx.
Qed.

End MiscibilityClaims.

Section CoefficientFacts.

Import Details.

Variable F : realFieldType.
Variable div0 : F -> F.

Implicit Types (props : Property F) (st : Self F) (input coeff : seq F).
Implicit Types (r : RegionId) (v : Value (Attributes F)).

Lemma at_set_at (s : seq F) (i j : int) (y : F) :
  0 <= i -> at_ (set_at s j y) i = if j == i then y else at_ s i.
Proof.
case: i => [n|n] // _; case: j => [k|k] //=.
by rewrite nth_set_nth /= eq_sym.
Qed.

Lemma at_set_at_eq (s : seq F) (i : int) (y : F) :
  0 <= i -> at_ (set_at s i y) i = y.
Proof. by move=> i_ge0; rewrite at_set_at // eqxx. Qed.

Lemma at_set_at_neq (s : seq F) (i j : int) (y : F) :
  0 <= i -> j != i -> at_ (set_at s j y) i = at_ s i.
Proof. by move=> i_ge0 /negbTE j_i; rewrite at_set_at // j_i. Qed.

Lemma calcCoeff_unknown props st input coeff r :
  lookup st r = None ->
  calcCoeff div0 props input r coeff st =
    (Throw (invalid_argument "Unknown region ID"), st).
Proof.
by move=> unknown; rewrite /calcCoeff /bind (attributes_unknown unknown).
Qed.

Lemma calcCoeff_known props st input coeff r v :
  lookup st r = Some v ->
  exists c, calcCoeff div0 props input r coeff st = (Ok c, st).
Proof.
move=> known; have [m run] := calcMiscibility_known div0 props input known.
rewrite /calcCoeff /bind (attributes_known known) /getRegCell.
by rewrite (cell_known known) run; eexists.
Qed.

(** The entry of water is written once and not touched by the oil and gas
    updates. *)
Lemma calcCoeff_water props st input coeff r v c :
  lookup st r = Some v ->
  PhaseUsed.water (phaseUsage props) -> water_pos_ok (phaseUsage props) ->
  calcCoeff div0 props input r coeff st = (Ok c, st) ->
  at_ c (PhasePos.water (phaseUsage props)) =
    fdiv div0 1
      (bWat props (pressure (attr_ v)) (temperature (attr_ v)) (cell_ v)).
Proof.
move=> known water /and3P[iw_ge0 iw_io iw_ig].
have [m run] := calcMiscibility_known div0 props input known.
rewrite /calcCoeff /bind (attributes_known known) /getRegCell.
rewrite (cell_known known) run water /ret => -[<-].
rewrite eq_sym in iw_io; rewrite eq_sym in iw_ig.
have skip_io := at_set_at_neq _ _ iw_ge0 iw_io.
have skip_ig := at_set_at_neq _ _ iw_ge0 iw_ig.
by case: (PhaseUsed.oil _); case: (PhaseUsed.gas _) => /=;
   rewrite ?(skip_io, skip_ig) at_set_at_eq.
Qed.

(** [calcMiscibility] looks at the phase usage only. *)
Lemma calcMiscibility_props props props' st input r :
  phaseUsage props' = phaseUsage props ->
  calcMiscibility div0 props' input r st = calcMiscibility div0 props input r st.
Proof. by rewrite /calcMiscibility => ->. Qed.

(** [calcCoeff] asks for formation volume factors at the pressure and the
    temperature stored for the region, and nowhere else. *)
Lemma calcCoeff_same_fvf props props' st input coeff r v :
  lookup st r = Some v ->
  same_fvf_at (pressure (attr_ v)) (temperature (attr_ v)) props props' ->
  calcCoeff div0 props' input r coeff st = calcCoeff div0 props input r coeff st.
Proof.
move=> known [np_eq pu_eq bWat_eq bOil_eq bGas_eq].
rewrite /calcCoeff /bind (attributes_known known) /getRegCell.
rewrite (cell_known known) (calcMiscibility_props _ _ _ pu_eq).
case: (calcMiscibility _ _ _ _ _) => [[m|e] st'] //.
by rewrite np_eq pu_eq bWat_eq bOil_eq bGas_eq.
Qed.

End CoefficientFacts.

Section DefineStateFacts.

Import Details.

Variable F : realFieldType.
Variable div0 : F -> F.
Variable props : Property F.
Variable rmap : RegionMapping.

Local Notation pu := (phaseUsage props).

Implicit Types (st : Self F) (state : BlackoilState F) (r reg : RegionId).
Implicit Types (v : Value (Attributes F)).

Lemma accumulate_sum (press temp own : seq F) (cs : seq nat) :
  accumulate false press temp own cs =
    (\sum_(c <- cs) nth 0 press c, \sum_(c <- cs) nth 0 temp c, size cs).
Proof.
rewrite /accumulate.
have loop (p0 T0 : F) (n0 : nat) :
    foldl (fun acc c =>
             let: (p, T, n) := acc in
             let: (dp, dT, dn) :=
               AverageIncrementCalculator false press temp own c in
             (p + dp, T + dT, (n + dn)%N)) (p0, T0, n0) cs =
    (p0 + \sum_(c <- cs) nth 0 press c, T0 + \sum_(c <- cs) nth 0 temp c,
     (n0 + size cs)%N).
  elim: cs p0 T0 n0 => [|c cs IH] p0 T0 n0 /=.
    by rewrite !big_nil !addr0 addn0.
  by rewrite IH !big_cons !addrA addn1 addSnnS.
by rewrite loop !add0r add0n.
Qed.

Lemma averagedE state reg v :
  cells rmap reg <> [::] ->
  averaged div0 rmap state reg v =
    mkAttributes (mean (state_pressure state) (cells rmap reg))
                 (mean (state_temperature state) (cells rmap reg))
                 (Rmax (attr_ v)).
Proof.
move=> nonempty; rewrite /averaged accumulate_sum /mean.
by rewrite !fdiv_neq0 // pnatr_eq0; case: (cells rmap reg) nonempty.
Qed.

Lemma calcAverages_update state st :
  calcAverages div0 rmap false state [::] st =
    for_each (activeRegions rmap) (update_value (averaged div0 rmap state)) st.
Proof.
rewrite /calcAverages; apply: eq_for_each => reg s.
rewrite /bind /attributes /bind /find /update_value /updated /averaged.
case known: (lookup s reg) => [v|] //=.
by case: (accumulate _ _ _ _ _) => [[p T] n]; rewrite /assign_attributes known.
Qed.

Lemma calcRmax_update st :
  PhaseUsed.oil pu && PhaseUsed.gas pu ->
  calcRmax props rmap st =
    for_each (activeRegions rmap) (update_value (saturated props)) st.
Proof.
rewrite /calcRmax => ->; apply: eq_for_each => reg s.
rewrite /bind /attributes /getRegCell /cell /bind /find /update_value /ret.
by case known: (lookup s reg) => [v|] //; rewrite /assign_attributes /= known /= known.
Qed.

Lemma calcRmax_skip st :
  ~~ (PhaseUsed.oil pu && PhaseUsed.gas pu) -> calcRmax props rmap st = (Ok tt, st).
Proof. by rewrite /calcRmax => /negbTE ->. Qed.

(** [defineState] on a converter that knows every active region, all of
    them with cells. *)
Lemma defineState_run state st :
  {subset activeRegions rmap <= keys st} ->
  (forall r, r \in activeRegions rmap -> cells rmap r <> [::]) ->
  exists st',
    [/\ defineState div0 props rmap state st = (Ok tt, st'),
        keys st' = keys st
      & forall r, r \in activeRegions rmap ->
          exists v',
            [/\ lookup st' r = Some v',
                pressure (attr_ v') =
                  mean (state_pressure state) (cells rmap r)
              & temperature (attr_ v') =
                  mean (state_temperature state) (cells rmap r)]].
Proof.
move=> sub nonempty.
pose averages r v :=
  r \in activeRegions rmap ->
  pressure (attr_ v) = mean (state_pressure state) (cells rmap r) /\
  temperature (attr_ v) = mean (state_temperature state) (cells rmap r).
have [st1 [run1 keys1 _ _ in1]] :=
  @for_each_update _ (fun _ _ => True) (averaged div0 rmap state) _ st
     (fun _ _ _ => I) sub (fun _ _ _ => I).
have avg1 r v : lookup st1 r = Some v -> averages r v.
  move=> st1_r active; have [v0 _] := in1 r active.
  by rewrite st1_r => -[->]; rewrite /updated /= averagedE //; apply: nonempty.
have sub1 : {subset activeRegions rmap <= keys st1} by rewrite keys1.
have [st2 [run2 keys2 avg2]] :
  exists st2, [/\ calcRmax props rmap st1 = (Ok tt, st2), keys st2 = keys st1
                & forall r v, lookup st2 r = Some v -> averages r v].
  case: (boolP (PhaseUsed.oil pu && PhaseUsed.gas pu)) => [miscible|immiscible].
    have keep r v : averages r v -> averages r (updated (saturated props) r v).
      by [].
    have [st2 [run2 keys2 avg2 _ _]] := for_each_update keep sub1 avg1.
    by exists st2; split=> //; rewrite calcRmax_update.
  by exists st1; split=> //; rewrite calcRmax_skip.
exists st2; split=> [||r active].
- by rewrite /defineState /bind calcAverages_update run1.
- by rewrite keys2.
- have /lookup_Some[v' st2_r] : r \in keys st2 by rewrite keys2; apply: sub1.
  by exists v'; have [] := avg2 _ _ st2_r active.
Qed.

(** Every reachable converter knows exactly the active regions, and each of
    them has cells. *)
Lemma reachable_keys st :
  reachable div0 props rmap st ->
  keys st =i activeRegions rmap /\
  forall r, r \in activeRegions rmap -> cells rmap r <> [::].
Proof.
elim=> [st0 new|st0 state st1 _ [keys0 nonempty] run].
  by rewrite /SurfaceToReservoirVoidage in new; case: (RegionAttributes_Ok new).
split=> //.
have sub : {subset activeRegions rmap <= keys st0} by move=> r; rewrite keys0.
have [st' [run' keys' _]] := defineState_run state sub nonempty.
by move: run; rewrite run' => -[<-] r; rewrite keys' keys0.
Qed.

Lemma reachable_lookup st r :
  reachable div0 props rmap st ->
  if r \in activeRegions rmap then exists v, lookup st r = Some v
  else lookup st r = None.
Proof.
move=> /reachable_keys[keys_st _]; rewrite -keys_st -lookup_keys.
by case: (lookup st r) => [v|] //=; exists v.
Qed.

End DefineStateFacts.

Section ConverterClaims.

Import Details.

Variable F : realFieldType.
Variable div0 : F -> F.
Variable props : Property F.
Variable rmap : RegionMapping.

Local Notation pu := (phaseUsage props).
Local Notation iw := (PhasePos.water pu).

Implicit Types (st : Self F) (state : BlackoilState F) (r reg : RegionId).
Implicit Types (v : Value (Attributes F)) (input coeff : seq F).

(** C5.  With water active, at a position of its own, the water entry of the
    coefficients that [calcCoeff] returns for a known region is [1 / bw],
    with [bw] taken at the pressure, temperature and cell stored for the
    region: two calls on the same converter state with different surface
    rates return the same water entry. *)
Theorem water_coefficient_independent st r v input1 input2 coeff1 coeff2 :
  lookup st r = Some v ->
  PhaseUsed.water pu -> water_pos_ok pu ->
  exists c1 c2,
    [/\ calcCoeff div0 props input1 r coeff1 st = (Ok c1, st),
        calcCoeff div0 props input2 r coeff2 st = (Ok c2, st),
        at_ c1 iw =
          fdiv div0 1
            (bWat props (pressure (attr_ v)) (temperature (attr_ v)) (cell_ v))
      & at_ c2 iw = at_ c1 iw].
Proof.
move=> known water pos_ok.
have [c1 run1] := calcCoeff_known div0 props input1 coeff1 known.
have [c2 run2] := calcCoeff_known div0 props input2 coeff2 known.
exists c1, c2; split=> //; first exact: calcCoeff_water run1.
by rewrite (calcCoeff_water known water pos_ok run1)
           (calcCoeff_water known water pos_ok run2).
Qed.

(** C9.  On a reachable converter, a region that is not among the active
    regions of the construction makes [calcCoeff], and the lookups
    [attributes] and [cell], throw [std::invalid_argument] with the message
    "Unknown region ID" and leave the stored attributes as they were; for an
    active region all three return. *)
Theorem unknown_region_throws st r input coeff :
  reachable div0 props rmap st ->
  if r \in activeRegions rmap then
    [/\ exists c, calcCoeff div0 props input r coeff st = (Ok c, st),
        exists ra, attributes r st = (Ok ra, st)
      & exists c, cell r st = (Ok c, st)]
  else
    [/\ calcCoeff div0 props input r coeff st =
          (Throw (invalid_argument "Unknown region ID"), st),
        attributes r st = (Throw (invalid_argument "Unknown region ID"), st)
      & cell r st = (Throw (invalid_argument "Unknown region ID"), st)].
Proof.
move=> /(reachable_lookup r).
case: ifP => _; [case=> v known|move=> unknown]; split.
- exact: calcCoeff_known known.
- by exists (attr_ v); apply: attributes_known.
- by exists (cell_ v); apply: cell_known.
- exact: calcCoeff_unknown.
- exact: attributes_unknown.
- exact: cell_unknown.
Qed.

End ConverterClaims.

(** ** The properties at concrete data *)

Section Instances.

Import Details Example.

(** Capping at "RSmax" = 0.6 and "RVmax" = 0.1 for the rates (50, 25). *)
Lemma miscibility_capped_witness :
  let props := props_two_phase (3 / 5) (1 / 10) in
  let st := state_with_Rmax [:: 3 / 5; 1 / 10] in
  lookup st 0 = Some (value_with_Rmax [:: 3 / 5; 1 / 10]) /\
  exists m,
    calcMiscibility div0_rat props rates_50_25 0 st = (Ok m, st) /\
    (rs m <= 3 / 5 /\ rv m <= 1 / 10).
Proof.
split; first reflexivity.
exact: (@miscibility_capped _ div0_rat (props_two_phase (3 / 5) (1 / 10))
          (state_with_Rmax [:: 3 / 5; 1 / 10]) rates_50_25 0
          (value_with_Rmax [:: 3 / 5; 1 / 10]) (erefl _)).
Defined.

(** Both rates zero with "RSmax" = 0.6 and "RVmax" = 0.1: [rs] and [rv]
    are 0. *)
Lemma miscibility_zero_rates_witness :
  let props := props_two_phase (3 / 5) (1 / 10) in
  let st := state_with_Rmax [:: 3 / 5; 1 / 10] in
  [/\ lookup st 0 = Some (value_with_Rmax [:: 3 / 5; 1 / 10]),
      PhaseUsed.oil (phaseUsage props) & PhaseUsed.gas (phaseUsage props)] /\
  exists m,
    [/\ calcMiscibility div0_rat props rates_zero 0 st = (Ok m, st),
        rs m = 0 & rv m = 0].
Proof.
split; first by split; reflexivity.
have [m [run rsE rvE _]] :=
  @miscibility_zero_rates _ div0_rat (props_two_phase (3 / 5) (1 / 10))
    (state_with_Rmax [:: 3 / 5; 1 / 10]) rates_zero 0
    (value_with_Rmax [:: 3 / 5; 1 / 10]) (erefl _) (erefl _) (erefl _).
exists m; split; first exact: run.
- by case: (rsE (erefl _)) => _ rs0; apply: rs0; [reflexivity | vm_compute].
- by case: (rvE (erefl _)) => _ rv0; apply: rv0; [reflexivity | vm_compute].
Defined.

(** The claim of C10 with a negative cap: the saturated ratios of the
    property object are -1, both rates are zero, and [rs] and [rv] come out
    as -1, not 0. *)
Lemma miscibility_zero_rates_negative_cap :
  exists st m,
    [/\ converter (props_two_phase (-1) (-1)) = Some st,
        calcMiscibility div0_rat (props_two_phase (-1) (-1)) rates_zero 0 st
          = (Ok m, st),
        at_ rates_zero (PhasePos.oil pu_oil_gas) = 0
        /\ at_ rates_zero (PhasePos.gas pu_oil_gas) = 0,
        rs m = -1 /\ rs m <> 0
      & rv m = -1 /\ rv m <> 0].
Proof.
exists (state_with_Rmax [:: -1; -1]).
exists (mkMiscibility (-1) (-1) (setFreeGas (setFreeOil noPhase))).
by split; [reflexivity | reflexivity | split | split | split].
Defined.

(** The example of C2 with "RVmax" = 0.1. *)
Lemma example_miscibility_witness :
  let props := props_two_phase (3 / 5) (1 / 10) in
  let st := state_with_Rmax [:: 3 / 5; 1 / 10] in
  let v := value_with_Rmax [:: 3 / 5; 1 / 10] in
  [/\ lookup st 0 = Some v,
      PhaseUsed.oil (phaseUsage props) /\ PhaseUsed.gas (phaseUsage props),
      at_ rates_50_25 (PhasePos.oil (phaseUsage props)) = 50
      /\ at_ rates_50_25 (PhasePos.gas (phaseUsage props)) = 25,
      RSmax (phaseUsage props) (attr_ v) = 3 / 5
    & RVmax (phaseUsage props) (attr_ v) < 2] /\
  exists m,
    [/\ calcMiscibility div0_rat props rates_50_25 0 st = (Ok m, st),
        rs m = 1 / 2,
        rv m = Num.min (50 / 25) (1 / 10)
      & 0 < detR m].
Proof.
have rvmax_lt2 :
    RVmax pu_oil_gas (attr_ (value_with_Rmax [:: 3 / 5; 1 / 10])) < 2.
  by vm_compute.
split; first by split; [reflexivity | split | split | reflexivity | ].
have [m [run [_ rsE] rvE det_capped _]] :=
  @example_miscibility _ div0_rat (props_two_phase (3 / 5) (1 / 10))
    (state_with_Rmax [:: 3 / 5; 1 / 10]) rates_50_25 0
    (value_with_Rmax [:: 3 / 5; 1 / 10])
    (erefl _) (erefl _) (erefl _) (erefl _) (erefl _) (erefl _).
have [_ det_gt0] := det_capped rvmax_lt2.
by exists m; split.
Defined.

(** The example of C2 with "RVmax" = 2: the converter is constructed, its
    state defined with saturated ratios 0.6 and 2, and for the rates
    (50, 25) [rs] is 0.5, [rv] is 2 and the determinant is 0. *)
Lemma example_miscibility_singular :
  exists st m,
    [/\ converter (props_two_phase (3 / 5) 2) = Some st,
        lookup st 0 = Some (value_with_Rmax [:: 3 / 5; 2]),
        calcMiscibility div0_rat (props_two_phase (3 / 5) 2) rates_50_25 0 st
          = (Ok m, st),
        rs m = 1 / 2
      & detR m = 0 /\ ~ (0 < detR m)].
Proof.
exists (state_with_Rmax [:: 3 / 5; 2]).
exists (mkMiscibility (1 / 2) 2 (setFreeOil noPhase)).
split; [reflexivity | reflexivity | reflexivity | reflexivity | ].
by split; [apply/eqP; vm_compute | vm_compute].
Defined.

(** The water entry in a three-phase converter with [bw = 2]. *)
Lemma water_coefficient_independent_witness :
  let pu := phaseUsage props_three_phase in
  let st := state_with_Rmax [:: 0; 3 / 5; 1 / 10] in
  [/\ lookup st 0 = Some (value_with_Rmax [:: 0; 3 / 5; 1 / 10]),
      PhaseUsed.water pu & water_pos_ok pu] /\
  exists c1 c2,
    [/\ calcCoeff div0_rat props_three_phase [:: 10; 50; 25] 0 [:: 7; 7; 7] st
          = (Ok c1, st),
        calcCoeff div0_rat props_three_phase [:: 0; 1; 2] 0 [:: 0; 0; 0] st
          = (Ok c2, st),
        at_ c1 (PhasePos.water pu) = fdiv div0_rat 1 2
      & at_ c2 (PhasePos.water pu) = at_ c1 (PhasePos.water pu)].
Proof.
split; first by split; reflexivity.
exact: (@water_coefficient_independent _ div0_rat props_three_phase
          (state_with_Rmax [:: 0; 3 / 5; 1 / 10]) 0
          (value_with_Rmax [:: 0; 3 / 5; 1 / 10])
          [:: 10; 50; 25] [:: 0; 1; 2] [:: 7; 7; 7] [:: 0; 0; 0]
          (erefl _) (erefl _) (erefl _)).
Defined.

(** The freshly constructed converter of [rmap_single] is reachable. *)
Lemma fresh_reachable (props : Property rat) :
  reachable div0_rat props rmap_single (fresh (numPhases props)).
Proof. by apply: reach_new; reflexivity. Defined.

(** Region 5 is unknown to the converter of region 0. *)
Lemma unknown_region_throws_witness :
  let props := props_two_phase (3 / 5) (1 / 10) in
  reachable div0_rat props rmap_single (fresh 2) /\
  [/\ calcCoeff div0_rat props rates_50_25 5 [:: 0; 0] (fresh 2) =
        (Throw (invalid_argument "Unknown region ID"), fresh 2),
      attributes 5 (fresh 2) =
        (Throw (invalid_argument "Unknown region ID"), fresh 2)
    & cell 5 (fresh 2) =
        (Throw (invalid_argument "Unknown region ID"), fresh 2)].
Proof.
have reach := fresh_reachable (props_two_phase (3 / 5) (1 / 10)).
split; first exact: reach.
exact: (unknown_region_throws 5 rates_50_25 [:: 0; 0] reach).
Defined.

End Instances.

(** ** The constructor *)

Section ConstructorFacts.

Import Details.

Variable Attributes : Type.
Variable rmap : RegionMapping.
Variable attr : Attributes.

Implicit Types (m : AttributeMap Attributes) (r : RegionId).

Local Notation entry r := (mkValue attr (Posz (head 0%N (cells rmap r)))).
Local Notation has_cells := (fun r : RegionId => cells rmap r != [::]).

(** The loop of the constructor over regions that all have cells. *)
Lemma for_each_insert_all (seen regs : seq RegionId) m :
  all has_cells regs -> uniq (keys m) ->
  (forall r, lookup m r = if r \in seen then Some (entry r) else None) ->
  exists m',
    [/\ for_each regs (insert_region rmap attr) m = (Ok tt, m'),
        uniq (keys m')
      & forall r,
          lookup m' r = if r \in seen ++ regs then Some (entry r) else None].
Proof.
elim: regs seen m => [|r0 regs IH] seen m /=.
  by move=> _ uniq_m m_seen; exists m; split=> // r; rewrite cats0.
case/andP=> cells_r0 all_regs uniq_m m_seen.
rewrite /bind {1}/insert_region m_seen.
case: (boolP (r0 \in seen)) => [r0_seen|r0_new].
  have [m' [run uniq_m' m'_seen]] := IH seen m all_regs uniq_m m_seen.
  exists m'; split=> // r; rewrite m'_seen !mem_cat in_cons.
  by case: (eqVneq r r0) => [->|//]; rewrite r0_seen.
move: cells_r0.
case cells_r0: (cells rmap r0) => [|c0 cs] // _.
pose m1 := rcons m (r0, mkValue attr (Posz c0)).
have uniq_m1 : uniq (keys m1).
  rewrite keys_rcons rcons_uniq uniq_m andbT -lookup_keys m_seen.
  by rewrite (negbTE r0_new).
have m1_seen r :
    lookup m1 r = if r \in rcons seen r0 then Some (entry r) else None.
  rewrite lookup_rcons m_seen mem_rcons in_cons.
  case: (boolP (r \in seen)) => [_|_]; first by rewrite orbT.
  by rewrite orbF eq_sym; case: eqP => // ->; rewrite cells_r0.
have [m' [run uniq_m' m'_seen]] := IH (rcons seen r0) m1 all_regs uniq_m1 m1_seen.
by exists m'; split=> // r; rewrite m'_seen -cats1 -catA.
Qed.

(** The loop of the constructor stops at the first region without cells. *)
Lemma for_each_insert_empty (regs : seq RegionId) m :
  (forall r, r \in keys m -> has_cells r) ->
  ~~ all has_cells regs ->
  exists m',
    for_each regs (insert_region rmap attr) m =
      (Throw (assertion_failed "! cells.empty()"), m').
Proof.
elim: regs m => [|r0 regs IH] m //= m_cells.
rewrite negb_and /bind {1}/insert_region.
case m_r0: (lookup m r0) => [v|].
  have r0_m : r0 \in keys m by rewrite -lookup_keys m_r0.
  by rewrite (m_cells _ r0_m) /=; apply: IH.
case cells_r0: (cells rmap r0) => [|c0 cs] /=.
  by move=> _; eexists.
apply: IH => r; rewrite keys_rcons mem_rcons in_cons.
by case/orP=> [/eqP ->|/m_cells //]; rewrite cells_r0.
Qed.

Lemma RegionAttributes_outcome :
  if all has_cells (activeRegions rmap) then
    exists st,
      [/\ RegionAttributes rmap attr = Ok st, uniq (keys st)
        & forall r,
            lookup st r =
              if r \in activeRegions rmap then Some (entry r) else None]
  else RegionAttributes rmap attr = Throw (assertion_failed "! cells.empty()").
Proof.
rewrite /RegionAttributes; case: ifP => [all_cells|/negbT some_empty].
  have [st [run uniq_st st_active]] :=
    @for_each_insert_all [::] _ [::] all_cells isT (fun _ => erefl).
  by exists st; rewrite run.
have no_keys r : r \in keys ([::] : AttributeMap Attributes) -> has_cells r.
  by [].
by have [m' ->] := for_each_insert_empty no_keys some_empty.
Qed.

End ConstructorFacts.

Section ConstructorShape.

Import Details.

Variable F : realFieldType.
Variable props : Property F.
Variable rmap : RegionMapping.

Lemma constructor_entries_shape st :
  SurfaceToReservoirVoidage props rmap = Ok st ->
  uniq (keys st) /\
  forall r,
    lookup st r =
      if r \in activeRegions rmap then Some (fresh_value props rmap r)
      else None.
Proof.
move=> built.
have := RegionAttributes_outcome rmap (Attributes_init F (numPhases props)).
move: built; rewrite /SurfaceToReservoirVoidage.
by case: ifP => _ ->; [case=> st' [[<-]] | ].
Qed.

End ConstructorShape.

Section ConstructorClaims.

Import Details.

Variable F : realFieldType.
Variable props : Property F.
Variable rmap : RegionMapping.

(** X1.  The constructor returns a converter exactly when every active
    region of the mapping has at least one cell; when some active region has
    none, the assertion [! cells.empty()] fails. *)
Theorem constructor_outcome :
  if all (fun r => cells rmap r != [::]) (activeRegions rmap)
  then exists st, SurfaceToReservoirVoidage props rmap = Ok st
  else SurfaceToReservoirVoidage props rmap =
         Throw (assertion_failed "! cells.empty()").
Proof.
have := RegionAttributes_outcome rmap (Attributes_init F (numPhases props)).
by case: ifP => // _ [st [run _ _]]; exists st.
Qed.

(** X2.  A freshly constructed converter has one entry per active region
    and none for any other region, however often a region is listed; the
    entry holds pressure 0, temperature 0, [numPhases] zeros as [Rmax], and
    the first cell of the region as its representative cell. *)
Theorem constructor_entries st :
  SurfaceToReservoirVoidage props rmap = Ok st ->
  uniq (keys st) /\
  forall r,
    lookup st r =
      if r \in activeRegions rmap
      then Some (mkValue (mkAttributes 0 0 (nseq (numPhases props) 0))
                         (Posz (head 0%N (cells rmap r))))
      else None.
Proof.
exact: constructor_entries_shape.
Qed.

End ConstructorClaims.

(** ** The state that [defineState] leaves *)

Section DefinedStateFacts.

Import Details.

Variable F : realFieldType.
Variable div0 : F -> F.
Variable props : Property F.
Variable rmap : RegionMapping.

Local Notation pu := (phaseUsage props).
Local Notation io := (PhasePos.oil pu).
Local Notation ig := (PhasePos.gas pu).
Local Notation V := (Value (Attributes F)).

Implicit Types (st : Self F) (state : BlackoilState F) (r reg : RegionId).
Implicit Types (v : V) (regs : seq RegionId).

Lemma keys_rewritten regs (g : RegionId -> V -> V) st :
  keys (rewritten regs g st) = keys st.
Proof.
rewrite /keys /rewritten -map_comp; apply: eq_map => -[k v] /=.
by case: ifP.
Qed.

Lemma lookup_rewritten regs (g : RegionId -> V -> V) st r :
  lookup (rewritten regs g st) r =
    if r \in regs then omap (g r) (lookup st r) else lookup st r.
Proof.
elim: st => [|[k v] st IH] /=; first by case: ifP.
case: (boolP (k \in regs)) => k_regs /=; rewrite IH;
  by case: (eqVneq k r) => [k_r|//]; rewrite -k_r ?k_regs ?(negbTE k_regs).
Qed.

Lemma rewritten_nil (g : RegionId -> V -> V) st : rewritten [::] g st = st.
Proof. by rewrite /rewritten; elim: st => [|kv st /= ->]. Qed.

Lemma store_rewritten st r v0 (w : V) :
  uniq (keys st) -> lookup st r = Some v0 ->
  store st r w = rewritten [:: r] (fun _ _ => w) st.
Proof.
elim: st => [|[k v] st IH] //=; rewrite mem_seq1.
case: (eqVneq k r) => [->|k_r] /andP[k_st uniq_st]; last first.
  by move=> known; rewrite (IH uniq_st known).
move=> _; congr cons; rewrite /rewritten.
elim: st k_st {uniq_st IH} => [|[k' v'] st IH] //=.
rewrite in_cons negb_or mem_seq1 => /andP[r_k' /IH <-].
by rewrite eq_sym (negbTE r_k').
Qed.

Lemma rewritten_cons_notin (g : RegionId -> V -> V) r0 regs st :
  r0 \notin keys st -> rewritten (r0 :: regs) g st = rewritten regs g st.
Proof.
elim: st => [|[k v] st IH] //=; rewrite !in_cons negb_or => /andP[r0_k /IH ->].
by rewrite eq_sym (negbTE r0_k).
Qed.

Lemma rewritten_step (g : RegionId -> V -> V) r0 regs st v0 :
  (forall r v, g r (g r v) = g r v) ->
  uniq (keys st) -> lookup st r0 = Some v0 ->
  rewritten regs g (rewritten [:: r0] (fun _ _ => g r0 v0) st) =
  rewritten (r0 :: regs) g st.
Proof.
move=> g_idem; elim: st => [|[k v] st IH] //= /andP[k_st uniq_st].
rewrite mem_seq1 in_cons; case: (eqVneq k r0) => [k_r0|_] /=; last first.
  by move=> known; congr cons; apply: IH.
rewrite -{r0 IH}k_r0 => -[->].
rewrite !(rewritten_cons_notin _ _ k_st) rewritten_nil.
by case: ifP => // _; rewrite g_idem.
Qed.

(** The loop that rewrites the attributes of each region, in closed form. *)
Lemma for_each_update_rewritten (f : RegionId -> V -> Attributes F) regs st :
  (forall r v, updated f r (updated f r v) = updated f r v) ->
  uniq (keys st) -> {subset regs <= keys st} ->
  for_each regs (update_value f) st = (Ok tt, rewritten regs (updated f) st).
Proof.
move=> f_idem; elim: regs st => [|r0 regs IH] st uniq_st sub /=.
  by rewrite rewritten_nil.
have /lookup_Some[v0 st_r0] : r0 \in keys st by apply: sub; rewrite mem_head.
rewrite /bind {1}/update_value st_r0 (store_rewritten _ uniq_st st_r0).
set st1 := rewritten [:: r0] _ st.
have keys1 : keys st1 = keys st by rewrite keys_rewritten.
have uniq1 : uniq (keys st1) by rewrite keys1.
have sub1 : {subset regs <= keys st1}.
  by move=> r r_regs; rewrite keys1; apply: sub; rewrite in_cons r_regs orbT.
by rewrite (IH _ uniq1 sub1) /st1 rewritten_step.
Qed.

(** Writing the same two positions again replaces what was written. *)
Lemma set_at_absorb (R : seq F) (i j : int) (a' b' a b : F) :
  set_at (set_at (set_at (set_at R i a') j b') i a) j b =
  set_at (set_at R i a) j b.
Proof.
have again (s : seq F) (n : nat) (y' y : F) :
    set_nth 0 (set_nth 0 s n y') n y = set_nth 0 s n y.
  by rewrite set_set_nth eqxx.
case: i j => [i|i] [j|j] //=; rewrite ?again //.
case: (eqVneq i j) => [->|i_j]; first by rewrite !again.
rewrite [set_nth 0 (set_nth 0 (set_nth 0 R i a') j b') i a]set_set_nth.
by rewrite eq_sym (negbTE i_j) /= !again.
Qed.

Lemma averaged_idem state r v :
  updated (averaged div0 rmap state) r (updated (averaged div0 rmap state) r v)
  = updated (averaged div0 rmap state) r v.
Proof.
by rewrite /updated /averaged /=; case: (accumulate _ _ _ _ _) => [[p T] n].
Qed.

Lemma saturated_idem r v :
  updated (saturated props) r (updated (saturated props) r v) =
  updated (saturated props) r v.
Proof. by rewrite /updated /saturated /= set_at_absorb. Qed.

(** The value after a second [defineState] does not depend on the first. *)
Lemma defined_value_absorb state state' r v :
  defined_value div0 props rmap state r
    (defined_value div0 props rmap state' r v) =
  defined_value div0 props rmap state r v.
Proof.
rewrite /defined_value; case: (PhaseUsed.oil pu && PhaseUsed.gas pu);
  rewrite /updated /saturated /averaged /=.
  do 2![case: (accumulate _ _ _ _ _) => [[? ?] ?] /=].
  by rewrite set_at_absorb.
by do 2![case: (accumulate _ _ _ _ _) => [[? ?] ?] /=].
Qed.

(** [defineState] in closed form. *)
Lemma defineState_rewritten state st :
  uniq (keys st) -> {subset activeRegions rmap <= keys st} ->
  defineState div0 props rmap state st =
    (Ok tt, rewritten (activeRegions rmap)
              (defined_value div0 props rmap state) st).
Proof.
move=> uniq_st sub; rewrite /defineState /bind calcAverages_update.
rewrite (for_each_update_rewritten (averaged_idem state)) //.
set st1 := rewritten _ _ st.
have keys1 : keys st1 = keys st by rewrite keys_rewritten.
have same_keys k v (g : RegionId -> V -> V) :
    (if k \in activeRegions rmap then (k, g k v) else (k, v)).1 = k.
  by case: ifP.
case: (boolP (PhaseUsed.oil pu && PhaseUsed.gas pu)) => [miscible|immiscible].
  rewrite calcRmax_update // (for_each_update_rewritten saturated_idem) ?keys1 //.
  congr (_, _); rewrite /st1 /rewritten -map_comp.
  apply: eq_map => -[k v] /=; rewrite /defined_value miscible.
  by case k_active: (k \in activeRegions rmap); rewrite /= k_active.
rewrite calcRmax_skip //; congr (_, _); rewrite /st1 /rewritten.
by apply: eq_map => -[k v] /=; rewrite /defined_value (negbTE immiscible).
Qed.

Lemma rewritten_absorb state state' st :
  rewritten (activeRegions rmap) (defined_value div0 props rmap state)
    (rewritten (activeRegions rmap) (defined_value div0 props rmap state') st)
  = rewritten (activeRegions rmap) (defined_value div0 props rmap state) st.
Proof.
rewrite /rewritten -map_comp; apply: eq_map => -[k v] /=.
by case k_active: (k \in activeRegions rmap);
   rewrite /= k_active // defined_value_absorb.
Qed.

(** A reachable converter is the fresh one, or the fresh one after a single
    [defineState]. *)
Lemma reachable_shape st0 st :
  SurfaceToReservoirVoidage props rmap = Ok st0 ->
  reachable div0 props rmap st ->
  st = st0 \/
  exists state,
    st = rewritten (activeRegions rmap)
           (defined_value div0 props rmap state) st0.
Proof.
move=> built.
have [uniq0 look0] := constructor_entries_shape built.
have sub0 : {subset activeRegions rmap <= keys st0}.
  by move=> r active; rewrite -lookup_keys look0 active.
elim=> [st1|st1 state st2 _ shape1 run].
  by rewrite built => -[->]; left.
right; exists state.
case: shape1 run => [->|[state' ->]].
  by rewrite defineState_rewritten // => -[].
rewrite defineState_rewritten ?keys_rewritten // => -[<-].
by rewrite rewritten_absorb.
Qed.

End DefinedStateFacts.

Section ReachableFacts.

Import Details.

Variable F : realFieldType.
Variable div0 : F -> F.
Variable props : Property F.
Variable rmap : RegionMapping.

Local Notation pu := (phaseUsage props).
Local Notation io := (PhasePos.oil pu).
Local Notation ig := (PhasePos.gas pu).
Local Notation np := (numPhases props).
Local Notation c0 r := (Posz (head 0%N (cells rmap r))).

Implicit Types (st : Self F) (state : BlackoilState F) (r reg : RegionId).
Implicit Types (v : Value (Attributes F)).

Lemma reachable_built st :
  reachable div0 props rmap st ->
  exists st0, SurfaceToReservoirVoidage props rmap = Ok st0.
Proof. by elim=> [st0 built|//]; exists st0. Qed.

Lemma reachable_uniq st : reachable div0 props rmap st -> uniq (keys st).
Proof.
move=> reach; have [st0 built] := reachable_built reach.
have [uniq0 _] := constructor_entries_shape built.
by case: (reachable_shape built reach) => [->|[state ->]];
   rewrite ?keys_rewritten.
Qed.

(** The entry of an active region in a reachable converter. *)
Lemma reachable_entry st r :
  reachable div0 props rmap st -> r \in activeRegions rmap ->
  exists2 v, lookup st r = Some v
    & v = fresh_value props rmap r \/
      exists state,
        v = defined_value div0 props rmap state r (fresh_value props rmap r).
Proof.
move=> reach active; have [st0 built] := reachable_built reach.
have [_ look0] := constructor_entries_shape built.
case: (reachable_shape built reach) => [->|[state ->]].
  by exists (fresh_value props rmap r); [rewrite look0 active | left].
exists (defined_value div0 props rmap state r (fresh_value props rmap r)).
  by rewrite lookup_rewritten look0 active.
by right; exists state.
Qed.

Lemma cell_defined_value state r v :
  cell_ (defined_value div0 props rmap state r v) = cell_ v.
Proof. by rewrite /defined_value; case: ifP. Qed.

Lemma pressure_defined_value state r v :
  cells rmap r <> [::] ->
  pressure (attr_ (defined_value div0 props rmap state r v)) =
    mean (state_pressure state) (cells rmap r) /\
  temperature (attr_ (defined_value div0 props rmap state r v)) =
    mean (state_temperature state) (cells rmap r).
Proof.
by move=> nonempty; rewrite /defined_value; case: ifP => _;
   rewrite /updated /saturated /= averagedE.
Qed.

Lemma in_rangeP (n : nat) (i : int) :
  in_range n i -> exists2 k, i = Posz k & (k < n)%N.
Proof. by case: i => // k k_n; exists k. Qed.

(** X3.  The state that [defineState] leaves depends on the reservoir state
    of this call only: called on any reachable converter it returns, and
    leaves what it leaves on the freshly constructed converter; calling it
    again with the same reservoir state changes nothing. *)
Theorem defineState_last_call_wins st0 st state :
  SurfaceToReservoirVoidage props rmap = Ok st0 ->
  reachable div0 props rmap st ->
  exists st1,
    [/\ defineState div0 props rmap state st = (Ok tt, st1),
        defineState div0 props rmap state st0 = (Ok tt, st1)
      & defineState div0 props rmap state st1 = (Ok tt, st1)].
Proof.
move=> built reach.
have [uniq0 look0] := constructor_entries_shape built.
have sub0 : {subset activeRegions rmap <= keys st0}.
  by move=> r active; rewrite -lookup_keys look0 active.
pose define s := rewritten (activeRegions rmap)
                   (defined_value div0 props rmap state) s.
have run s : keys s = keys st0 ->
    defineState div0 props rmap state s = (Ok tt, define s).
  by move=> keys_s; apply: defineState_rewritten; rewrite keys_s.
have keys_define s : keys (define s) = keys s by rewrite keys_rewritten.
exists (define st0); split; [|exact: run|]; last first.
  by rewrite run ?keys_define // /define rewritten_absorb.
case: (reachable_shape built reach) => [->|[state' ->]]; first exact: run.
by rewrite run ?keys_rewritten // /define rewritten_absorb.
Qed.

(** X4.  On every reachable converter the representative cell of an active
    region is the first cell of the region: [defineState] never moves it. *)
Theorem representative_cell_is_first st r :
  reachable div0 props rmap st -> r \in activeRegions rmap ->
  cells rmap r <> [::] /\ getRegCell r st = (Ok (c0 r), st).
Proof.
move=> reach active; have [_ nonempty] := reachable_keys reach.
split; first by apply: nonempty.
have [v known shape] := reachable_entry reach active.
rewrite /getRegCell (cell_known known).
by case: shape => [->|[state ->]] //; rewrite cell_defined_value.
Qed.

(** X5.  With oil and gas active at valid, distinct positions, after
    [defineState] the "RSmax" of an active region is [rsSat] and its "RVmax"
    is [rvSat], both taken at the region's mean pressure and mean
    temperature and at its first cell. *)
Theorem defineState_saturated_ratios st state r :
  reachable div0 props rmap st -> r \in activeRegions rmap ->
  wf_phases props -> PhaseUsed.oil pu -> PhaseUsed.gas pu ->
  exists st1 v,
    [/\ defineState div0 props rmap state st = (Ok tt, st1),
        lookup st1 r = Some v,
        RSmax pu (attr_ v) =
          rsSat props (mean (state_pressure state) (cells rmap r))
                      (mean (state_temperature state) (cells rmap r)) (c0 r)
      & RVmax pu (attr_ v) =
          rvSat props (mean (state_pressure state) (cells rmap r))
                      (mean (state_temperature state) (cells rmap r)) (c0 r)].
Proof.
move=> reach active /and5P[_ + + _ /andP[_ +]] oil gas.
rewrite oil gas /= => /in_rangeP[ko io_ko _] /in_rangeP[kg ig_kg _] io_ig.
have [_ nonempty] := reachable_keys reach.
have [v0 known shape] := reachable_entry reach active.
have uniq_st := reachable_uniq reach.
have sub : {subset activeRegions rmap <= keys st}.
  by have [keys_st _] := reachable_keys reach; move=> k; rewrite keys_st.
exists (rewritten (activeRegions rmap) (defined_value div0 props rmap state) st).
exists (defined_value div0 props rmap state r v0).
have cell0 : cell_ v0 = c0 r.
  by case: shape => [->|[state' ->]] //; rewrite cell_defined_value.
have avgE := averagedE div0 state v0 (nonempty _ active).
have io_ge0 : 0 <= io by rewrite io_ko.
have ig_ge0 : 0 <= ig by rewrite ig_kg.
have ig_io : ig != io by rewrite eq_sym.
split; first exact: defineState_rewritten.
- by rewrite lookup_rewritten active known.
- rewrite /defined_value oil gas /= /RSmax /updated /saturated /= avgE /=.
  by rewrite (at_set_at_neq _ _ io_ge0 ig_io) (at_set_at_eq _ _ io_ge0) cell0.
- rewrite /defined_value oil gas /= /RVmax /updated /saturated /= avgE /=.
  by rewrite (at_set_at_eq _ _ ig_ge0) cell0.
Qed.

(** X6.  Unless oil and gas are both active, [Rmax] is never written: in
    every reachable converter each region holds the [numPhases] zeros of the
    construction. *)
Theorem Rmax_untouched st r v :
  reachable div0 props rmap st ->
  ~~ (PhaseUsed.oil pu && PhaseUsed.gas pu) ->
  lookup st r = Some v ->
  Rmax (attr_ v) = nseq np 0.
Proof.
move=> reach /negbTE immiscible known.
have active : r \in activeRegions rmap.
  by have [keys_st _] := reachable_keys reach; rewrite -keys_st -lookup_keys known.
have [v' known' shape] := reachable_entry reach active.
move: known'; rewrite known => -[->].
case: shape => [->|[state ->]] //.
rewrite /defined_value immiscible /updated /averaged /=.
by case: (accumulate _ _ _ _ _) => [[? ?] ?].
Qed.

End ReachableFacts.

(** ** Sums over owned cells and phase presence *)

Section OwnershipFacts.

Variable F : realFieldType.

(** X7.  With [is_parallel] set, the sums and the count of [calcAverages]
    run over the cells of the region that the ownership mask marks with a
    non-zero value: the other cells add nothing and are not counted. *)
Theorem accumulate_owned (press temp own : seq F) (cs : seq nat) :
  accumulate true press temp own cs =
    (\sum_(c <- owned own cs) nth 0 press c,
     \sum_(c <- owned own cs) nth 0 temp c,
     size (owned own cs)).
Proof.
rewrite /accumulate.
have loop (p0 T0 : F) (n0 : nat) :
    foldl (fun acc c =>
             let: (p, T, n) := acc in
             let: (dp, dT, dn) :=
               Details.AverageIncrementCalculator true press temp own c in
             (p + dp, T + dT, (n + dn)%N)) (p0, T0, n0) cs =
    (p0 + \sum_(c <- owned own cs) nth 0 press c,
     T0 + \sum_(c <- owned own cs) nth 0 temp c,
     (n0 + size (owned own cs))%N).
  elim: cs p0 T0 n0 => [|c cs IH] p0 T0 n0 /=.
    by rewrite /owned /= !big_nil !addr0 addn0.
  rewrite /Details.AverageIncrementCalculator /owned /=.
  case: ifP => _ /=; rewrite IH.
    by rewrite !big_cons !addrA addn1 addSnnS.
  by rewrite !addr0 addn0.
by rewrite loop !add0r add0n.
Qed.

End OwnershipFacts.

Section PresenceFacts.

Import Details.

Variable F : realFieldType.
Variable div0 : F -> F.
Variable props : Property F.

Local Notation pu := (phaseUsage props).
Local Notation io := (PhasePos.oil pu).
Local Notation ig := (PhasePos.gas pu).

Implicit Types (st : Self F) (input : seq F) (r : RegionId).
Implicit Types (v : Value (Attributes F)) (m : Miscibility F).

Lemma calcMiscibility_cond st input r v m :
  lookup st r = Some v ->
  calcMiscibility div0 props input r st = (Ok m, st) ->
  cond m =
    mkPhasePresence (PhaseUsed.water pu) (PhaseUsed.oil pu)
      (if PhaseUsed.oil pu
       then PhaseUsed.gas pu &&
            (RSmax pu (attr_ v) <
               (if 0 < std_abs (at_ input io)
                then fdiv div0 (at_ input ig) (at_ input io)
                else if 0 < std_abs (at_ input ig)
                     then RSmax pu (attr_ v) else 0))
       else PhaseUsed.gas pu).
Proof.
move=> known.
rewrite /calcMiscibility /bind (attributes_known known) /ret => -[<-].
case: (PhaseUsed.water pu); case: (PhaseUsed.oil pu);
  case: (PhaseUsed.gas pu) => //=; rewrite /RSmax;
  by case: ifP.
Qed.

(** X8.  The phase presence that [calcMiscibility] reports for a known
    region: free water and free oil exactly when the phase is active; free
    gas, when oil is active too, exactly when the gas-oil ratio of the rates
    exceeds "RSmax" (at a zero oil rate: never, unless both rates are zero
    and "RSmax" is negative); with oil inactive, free gas whenever gas is
    active. *)
Theorem miscibility_phase_presence st input r v :
  lookup st r = Some v ->
  exists m,
    [/\ calcMiscibility div0 props input r st = (Ok m, st),
        hasFreeWater (cond m) = PhaseUsed.water pu,
        hasFreeOil (cond m) = PhaseUsed.oil pu
      & hasFreeGas (cond m) =
          if PhaseUsed.oil pu
          then PhaseUsed.gas pu &&
               (if at_ input io != 0
                then RSmax pu (attr_ v) < at_ input ig / at_ input io
                else (at_ input ig == 0) && (RSmax pu (attr_ v) < 0))
          else PhaseUsed.gas pu].
Proof.
move=> known; have [m run] := calcMiscibility_known div0 props input known.
exists m; rewrite (calcMiscibility_cond known run); split=> //=.
case: ifP => // _; congr (_ && _); rewrite !std_abs_gt0.
case: (eqVneq (at_ input io) 0) => [_|oil_n0] /=; last by rewrite fdiv_neq0.
by case: (eqVneq (at_ input ig) 0) => [_|_] /=; rewrite ?ltxx.
Qed.

End PresenceFacts.

(** ** Validity of the index constants *)

Section IndexFacts.

Import MultisegmentWell.

(** X10.  [SPres], the largest index constant, is a position of
    [std::array<double, numWellEq>] exactly in these cases: gas/oil without
    polymer; otherwise at least three reservoir equations without polymer,
    or at least four with polymer.  (For two equations without a
    composition switch it is not.) *)
Theorem SPres_in_bounds (tt : TypeTag) :
  (SPres tt < numWellEq tt) =
    if gasoil tt then ~~ EnablePolymer tt
    else if EnablePolymer tt then 4 <= numEq tt else 3 <= numEq tt.
Proof.
rewrite /SPres /numWellEq; case go: (gasoil tt).
  by case/andP: go => /eqP -> _; case: (EnablePolymer tt).
case: (EnablePolymer tt); last by rewrite ltzD1.
by rewrite -lezD1.
Qed.

End IndexFacts.

(** ** The coefficients in closed form *)

Section CoefficientForms.

Import Details.

Variable F : realFieldType.
Variable div0 : F -> F.
Variable props : Property F.

Local Notation pu := (phaseUsage props).
Local Notation iw := (PhasePos.water pu).
Local Notation io := (PhasePos.oil pu).
Local Notation ig := (PhasePos.gas pu).
Local Notation np := (numPhases props).

Implicit Types (st : Self F) (input coeff : seq F) (r : RegionId).
Implicit Types (v : Value (Attributes F)) (m : Miscibility F).

Lemma at_fill_zero coeff (i : int) :
  in_range np i -> at_ (fill_zero np coeff) i = 0.
Proof.
case: i => // n; rewrite /in_range /at_ /fill_zero nth_cat size_nseq => n_np.
by rewrite n_np nth_nseq n_np.
Qed.

Lemma in_range_ge0 (n : nat) (i : int) : in_range n i -> 0 <= i.
Proof. by case: i. Qed.

(** What [calcCoeff] returns for a known region, step by step. *)
Lemma calcCoeff_steps st input coeff r v m :
  lookup st r = Some v ->
  calcMiscibility div0 props input r st = (Ok m, st) ->
  let p := pressure (attr_ v) in
  let T := temperature (attr_ v) in
  let c := cell_ v in
  let c1 := fill_zero np coeff in
  let c2 :=
    if PhaseUsed.water pu then set_at c1 iw (fdiv div0 1 (bWat props p T c))
    else c1 in
  let deno := bOil props p T (rs m) (cond m) c * detR m in
  let deng := bGas props p T (rv m) (cond m) c * detR m in
  let c3 :=
    if PhaseUsed.oil pu then
      let c' := set_at c2 io (at_ c2 io + fdiv div0 1 deno) in
      if PhaseUsed.gas pu
      then set_at c' ig (at_ c' ig - fdiv div0 (rv m) deno) else c'
    else c2 in
  let c4 :=
    if PhaseUsed.gas pu then
      let c' := set_at c3 ig (at_ c3 ig + fdiv div0 1 deng) in
      if PhaseUsed.oil pu
      then set_at c' io (at_ c' io - fdiv div0 (rs m) deng) else c'
    else c3 in
  calcCoeff div0 props input r coeff st = (Ok c4, st).
Proof.
move=> known run /=.
rewrite /calcCoeff /bind (attributes_known known) /getRegCell.
by rewrite (cell_known known) run.
Qed.

(** The oil and gas entries when both phases are active. *)
Lemma calcCoeff_oil_gas_entries st input coeff r v m c :
  lookup st r = Some v -> wf_phases props ->
  PhaseUsed.oil pu -> PhaseUsed.gas pu ->
  calcMiscibility div0 props input r st = (Ok m, st) ->
  calcCoeff div0 props input r coeff st = (Ok c, st) ->
  let bo :=
    bOil props (pressure (attr_ v)) (temperature (attr_ v))
      (rs m) (cond m) (cell_ v) in
  let bg :=
    bGas props (pressure (attr_ v)) (temperature (attr_ v))
      (rv m) (cond m) (cell_ v) in
  at_ c io = fdiv div0 1 (bo * detR m) - fdiv div0 (rs m) (bg * detR m) /\
  at_ c ig = fdiv div0 1 (bg * detR m) - fdiv div0 (rv m) (bo * detR m).
Proof.
move=> known /and5P[w_ok + + w_io /andP[w_ig +]] oil gas run.
rewrite oil gas /= => io_ok ig_ok io_ig.
rewrite (calcCoeff_steps coeff known run) oil gas /= => -[<-].
have io_ge0 := in_range_ge0 io_ok; have ig_ge0 := in_range_ge0 ig_ok.
have ig_io : ig != io by rewrite eq_sym.
set c2 := if PhaseUsed.water pu then _ else _.
have c2_io : at_ c2 io = 0.
  rewrite /c2; case water: (PhaseUsed.water pu); last exact: at_fill_zero.
  move: w_io; rewrite water oil /= => iw_io.
  by rewrite at_set_at_neq // at_fill_zero.
have c2_ig : at_ c2 ig = 0.
  rewrite /c2; case water: (PhaseUsed.water pu); last exact: at_fill_zero.
  move: w_ig; rewrite water gas /= => iw_ig.
  by rewrite at_set_at_neq // at_fill_zero.
split.
- rewrite at_set_at_eq // at_set_at_neq // at_set_at_neq // at_set_at_eq //.
  by rewrite c2_io add0r.
- rewrite at_set_at_neq // at_set_at_eq // at_set_at_eq //.
  rewrite at_set_at_neq // c2_ig.
  by rewrite sub0r addrC.
Qed.

(** X11.  With oil and gas active at valid, distinct positions, the
    coefficients that [calcCoeff] returns for a known region are
    [1/(bo detR) - rs/(bg detR)] for oil and [1/(bg detR) - rv/(bo detR)]
    for gas, with [rs], [rv] from [calcMiscibility], [detR = 1 - rs rv] and
    the formation volume factors taken at the region's stored pressure,
    temperature and cell. *)
Theorem oil_gas_coefficients st input coeff r v :
  lookup st r = Some v -> wf_phases props ->
  PhaseUsed.oil pu -> PhaseUsed.gas pu ->
  exists m c,
    [/\ calcMiscibility div0 props input r st = (Ok m, st),
        calcCoeff div0 props input r coeff st = (Ok c, st),
        at_ c io =
          fdiv div0 1
            (bOil props (pressure (attr_ v)) (temperature (attr_ v))
               (rs m) (cond m) (cell_ v) * detR m)
          - fdiv div0 (rs m)
              (bGas props (pressure (attr_ v)) (temperature (attr_ v))
                 (rv m) (cond m) (cell_ v) * detR m)
      & at_ c ig =
          fdiv div0 1
            (bGas props (pressure (attr_ v)) (temperature (attr_ v))
               (rv m) (cond m) (cell_ v) * detR m)
          - fdiv div0 (rv m)
              (bOil props (pressure (attr_ v)) (temperature (attr_ v))
                 (rs m) (cond m) (cell_ v) * detR m)].
Proof.
move=> known wf oil gas.
have [m run] := calcMiscibility_known div0 props input known.
have [c runc] := calcCoeff_known div0 props input coeff known.
exists m, c.
by have [] := calcCoeff_oil_gas_entries known wf oil gas run runc.
Qed.


End CoefficientForms.

Section CoefficientBuffer.

Import Details.

Variable F : realFieldType.
Variable div0 : F -> F.
Variable props : Property F.

Local Notation pu := (phaseUsage props).
Local Notation iw := (PhasePos.water pu).
Local Notation io := (PhasePos.oil pu).
Local Notation ig := (PhasePos.gas pu).
Local Notation np := (numPhases props).

Implicit Types (st : Self F) (input coeff : seq F) (r : RegionId).
Implicit Types (v : Value (Attributes F)) (m : Miscibility F).

(** X13.  With oil active and gas not, [rs] and [rv] are 0, the determinant
    is 1 and the oil coefficient is [1/bo], with [bo] taken at a zero
    gas-oil ratio and a phase presence without free gas. *)
Theorem dead_oil_coefficient st input coeff r v :
  lookup st r = Some v -> wf_phases props ->
  PhaseUsed.oil pu -> ~~ PhaseUsed.gas pu ->
  exists m c,
    [/\ calcMiscibility div0 props input r st = (Ok m, st),
        calcCoeff div0 props input r coeff st = (Ok c, st),
        [/\ rs m = 0, rv m = 0 & detR m = 1]
      & at_ c io =
          fdiv div0 1
            (bOil props (pressure (attr_ v)) (temperature (attr_ v)) 0
               (mkPhasePresence (PhaseUsed.water pu) true false) (cell_ v))].
Proof.
move=> known /and5P[_ + _ w_io _] oil /negbTE gas.
rewrite oil /= => io_ok.
have [m run] := calcMiscibility_known div0 props input known.
have immiscible : ~~ (PhaseUsed.oil pu && PhaseUsed.gas pu) by rewrite gas andbF.
have [rs0 rv0] := calcMiscibility_immiscible immiscible run.
have det1 : detR m = 1 by rewrite /detR rs0 mul0r subr0.
have condE := calcMiscibility_cond known run.
exists m; eexists; split=> //.
  by rewrite (calcCoeff_steps coeff known run) oil gas /=.
have io_ge0 := in_range_ge0 io_ok.
rewrite at_set_at_eq // det1 mulr1 rs0 condE oil gas.
case water: (PhaseUsed.water pu); last by rewrite at_fill_zero // add0r.
move: w_io; rewrite water oil /= => iw_io.
by rewrite at_set_at_neq // at_fill_zero // add0r.
Qed.

Lemma set_at_cat (a b : seq F) (i : int) (y : F) :
  in_range (size a) i ->
  set_at (a ++ b) i y = set_at a i y ++ b /\ size (set_at a i y) = size a.
Proof.
case: i => // n; rewrite /in_range /= => n_a; split.
  apply: (@eq_from_nth _ 0) => [|k _].
    rewrite size_set_nth !size_cat size_set_nth (maxn_idPr n_a).
    by rewrite (maxn_idPr (leq_trans n_a (leq_addr _ _))).
  rewrite nth_set_nth /= !nth_cat size_set_nth (maxn_idPr n_a) nth_set_nth /=.
  by case: (eqVneq k n) => // ->; rewrite n_a.
by rewrite size_set_nth; apply/maxn_idPr.
Qed.

Lemma at_cat (a b : seq F) (i : int) :
  in_range (size a) i -> at_ (a ++ b) i = at_ a i.
Proof. by case: i => // n; rewrite /in_range /= nth_cat => ->. Qed.

(** A list that is [np] entries followed by [tail]. *)
Local Notation splits tail s :=
  (exists2 a : seq F, size a = np & s = a ++ tail).

Lemma splits_set_at tail s (i : int) (y : F) :
  in_range np i -> splits tail s -> splits tail (set_at s i y).
Proof.
move=> i_ok [a size_a ->]; rewrite -size_a in i_ok.
have [-> size_set] := set_at_cat tail y i_ok.
by exists (set_at a i y); rewrite ?size_set.
Qed.

Lemma splits_fill coeff : splits (drop np coeff) (fill_zero np coeff).
Proof. by exists (nseq np 0); rewrite ?size_nseq. Qed.

(** Two lists of [np] entries followed by tails, written at the same place
    with values that agree, still agree on their first [np] entries. *)
Local Notation agree s s' :=
  (take np (s : seq F) = take np (s' : seq F)).

Lemma take_splits (tail s a : seq F) :
  size a = np -> s = a ++ tail -> take np s = a.
Proof. by move=> size_a ->; rewrite take_size_cat. Qed.

Lemma agree_set_at tail tail' s s' (i : int) (y : F) :
  in_range np i -> splits tail s -> splits tail' s' -> agree s s' ->
  agree (set_at s i y) (set_at s' i y).
Proof.
move=> i_ok [a size_a sE] [a' size_a' s'E].
rewrite (take_splits size_a sE) (take_splits size_a' s'E) => a_a'.
rewrite sE s'E -a_a'; rewrite -size_a in i_ok.
have [-> size_set] := set_at_cat tail y i_ok.
have [-> _] := set_at_cat tail' y i_ok.
by rewrite !take_size_cat ?size_set.
Qed.

Lemma agree_at tail tail' s s' (i : int) :
  in_range np i -> splits tail s -> splits tail' s' -> agree s s' ->
  at_ s i = at_ s' i.
Proof.
move=> i_ok [a size_a sE] [a' size_a' s'E].
rewrite (take_splits size_a sE) (take_splits size_a' s'E) => a_a'.
by rewrite sE s'E -a_a' !at_cat // size_a.
Qed.

Local Notation paired tail tail' s s' :=
  [/\ splits tail s, splits tail' s' & agree s s'].

Lemma paired_fill coeff coeff' :
  paired (drop np coeff) (drop np coeff')
         (fill_zero np coeff) (fill_zero np coeff').
Proof.
by split; try exact: splits_fill; rewrite /fill_zero !take_size_cat ?size_nseq.
Qed.

Lemma paired_set_at (tail tail' s s' : seq F) (i : int) (y y' : F) :
  in_range np i -> y = y' -> paired tail tail' s s' ->
  paired tail tail' (set_at s i y) (set_at s' i y').
Proof.
move=> i_ok <- [sp sp' ag]; split; try exact: splits_set_at.
exact: agree_set_at sp sp' ag.
Qed.

Lemma paired_at (tail tail' s s' : seq F) (i : int) :
  in_range np i -> paired tail tail' s s' -> at_ s i = at_ s' i.
Proof. by move=> i_ok [sp sp' ag]; apply: agree_at sp sp' ag. Qed.

Ltac paired_steps :=
  first
    [ exact: paired_fill
    | apply: paired_set_at; [ by [] | paired_value | paired_steps ] ]
with paired_value :=
  first
    [ by []
    | congr (_ + _); apply: paired_at; [ by [] | paired_steps ] ].

Lemma calcCoeff_splits st input coeff coeff' r v c c' :
  lookup st r = Some v -> wf_phases props ->
  calcCoeff div0 props input r coeff st = (Ok c, st) ->
  calcCoeff div0 props input r coeff' st = (Ok c', st) ->
  paired (drop np coeff) (drop np coeff') c c'.
Proof.
move=> known /and5P[w_ok o_ok g_ok _ _].
have [m run] := calcMiscibility_known div0 props input known.
rewrite !(calcCoeff_steps _ known run) /= => -[<-] [<-].
case water: (PhaseUsed.water pu) w_ok => /= w_ok;
case oil: (PhaseUsed.oil pu) o_ok => /= o_ok;
case gas: (PhaseUsed.gas pu) g_ok => /= g_ok;
paired_steps.
Qed.

(** X14.  [calcCoeff] writes the first [numPhases] entries of the caller's
    array and nothing else: with the active phases at valid positions, the
    entries from [numPhases] on come back as they went in, and the first
    [numPhases] entries that come back do not depend on what the array held
    before the call. *)
Theorem calcCoeff_writes_prefix st input coeff coeff' r v :
  lookup st r = Some v -> wf_phases props ->
  exists c c',
    [/\ calcCoeff div0 props input r coeff st = (Ok c, st),
        calcCoeff div0 props input r coeff' st = (Ok c', st),
        drop np c = drop np coeff /\ size (take np c) = np
      & take np c = take np c'].
Proof.
move=> known wf.
have [c run] := calcCoeff_known div0 props input coeff known.
have [c' run'] := calcCoeff_known div0 props input coeff' known.
have [[a size_a cE] _ ag] := calcCoeff_splits known wf run run'.
exists c, c'; split=> //; split; last by rewrite (take_splits size_a cE).
by rewrite cE drop_size_cat.
Qed.

End CoefficientBuffer.

Section CoefficientEntries.

Import Details.

Variable F : realFieldType.
Variable div0 : F -> F.
Variable props : Property F.

Local Notation pu := (phaseUsage props).
Local Notation iw := (PhasePos.water pu).
Local Notation io := (PhasePos.oil pu).
Local Notation ig := (PhasePos.gas pu).
Local Notation np := (numPhases props).

Implicit Types (st : Self F) (input coeff : seq F) (r : RegionId).
Implicit Types (v : Value (Attributes F)) (m : Miscibility F).

(** Every entry that [calcCoeff] writes, for active phases at valid,
    distinct positions. *)
Lemma calcCoeff_entries st input coeff r v m c :
  lookup st r = Some v -> wf_phases props ->
  calcMiscibility div0 props input r st = (Ok m, st) ->
  calcCoeff div0 props input r coeff st = (Ok c, st) ->
  let p := pressure (attr_ v) in
  let T := temperature (attr_ v) in
  let bw := bWat props p T (cell_ v) in
  let bo := bOil props p T (rs m) (cond m) (cell_ v) in
  let bg := bGas props p T (rv m) (cond m) (cell_ v) in
  [/\ PhaseUsed.water pu -> at_ c iw = fdiv div0 1 bw,
      PhaseUsed.oil pu ->
        at_ c io =
          fdiv div0 1 (bo * detR m)
          - (if PhaseUsed.gas pu then fdiv div0 (rs m) (bg * detR m) else 0)
    & PhaseUsed.gas pu ->
        at_ c ig =
          fdiv div0 1 (bg * detR m)
          - (if PhaseUsed.oil pu then fdiv div0 (rv m) (bo * detR m) else 0)].
Proof.
move=> known wf run; rewrite (calcCoeff_steps coeff known run) => -[<-] {c} /=.
have zero := @at_fill_zero _ props coeff.
move: wf zero => /and5P[+ + + + /andP[]].
case: (PhaseUsed.water pu); case: (PhaseUsed.oil pu);
  case: (PhaseUsed.gas pu) => /= w_ok o_ok g_ok w_o w_g o_g zero;
  split=> // _;
  try have iw_ge0 := in_range_ge0 w_ok;
  try have io_ge0 := in_range_ge0 o_ok;
  try have ig_ge0 := in_range_ge0 g_ok;
  rewrite ?at_set_at // ?[io == iw]eq_sym ?[ig == iw]eq_sym ?[ig == io]eq_sym;
  rewrite ?eqxx ?(negbTE w_o) ?(negbTE w_g) ?(negbTE o_g) ?eqxx ?zero //;
  by rewrite ?add0r ?sub0r ?subr0 // addrC.
Qed.

End CoefficientEntries.

(** ** The averages and the coefficients taken at them *)

Section AveragedCoefficients.

Import Details.

Variable F : realFieldType.
Variable div0 : F -> F.
Variable props : Property F.
Variable rmap : RegionMapping.

Local Notation pu := (phaseUsage props).
Local Notation iw := (PhasePos.water pu).
Local Notation io := (PhasePos.oil pu).
Local Notation ig := (PhasePos.gas pu).
Local Notation c0 r := (Posz (head 0%N (cells rmap r))).

Implicit Types (st : Self F) (state : BlackoilState F) (r reg : RegionId).
Implicit Types (v : Value (Attributes F)) (input coeff : seq F).

(** C7.  On a reachable converter [defineState] returns, and then every
    active region has cells and holds as pressure and temperature the
    arithmetic means of the cell pressures and temperatures over the list
    of its cells, each cell of the list counted once.  [calcCoeff] for that
    region returns, and these two means are where it takes the fluid
    properties: with the active phases at valid, distinct positions the
    water entry is [1/bw] and the oil and gas entries are built from [bo]
    and [bg], all three taken at the two means and the first cell of the
    region; and for any phase usage, a property object that agrees with
    [props] at the two means gives the same coefficients. *)
Theorem defineState_region_averages st0 state :
  reachable div0 props rmap st0 ->
  exists st1,
    defineState div0 props rmap state st0 = (Ok tt, st1) /\
    forall reg, reg \in activeRegions rmap ->
      let pbar := mean (state_pressure state) (cells rmap reg) in
      let Tbar := mean (state_temperature state) (cells rmap reg) in
      exists v,
        [/\ lookup st1 reg = Some v /\ cells rmap reg <> [::],
            pressure (attr_ v) = pbar /\ temperature (attr_ v) = Tbar,
            forall input coeff,
              exists m c,
                [/\ calcMiscibility div0 props input reg st1 = (Ok m, st1),
                    calcCoeff div0 props input reg coeff st1 = (Ok c, st1)
                  & wf_phases props ->
                    let bw := bWat props pbar Tbar (c0 reg) in
                    let bo := bOil props pbar Tbar (rs m) (cond m) (c0 reg) in
                    let bg := bGas props pbar Tbar (rv m) (cond m) (c0 reg) in
                    [/\ PhaseUsed.water pu -> at_ c iw = fdiv div0 1 bw,
                        PhaseUsed.oil pu ->
                          at_ c io =
                            fdiv div0 1 (bo * detR m)
                            - (if PhaseUsed.gas pu
                               then fdiv div0 (rs m) (bg * detR m) else 0)
                      & PhaseUsed.gas pu ->
                          at_ c ig =
                            fdiv div0 1 (bg * detR m)
                            - (if PhaseUsed.oil pu
                               then fdiv div0 (rv m) (bo * detR m) else 0)]]
          & forall props' input coeff,
              same_fvf_at pbar Tbar props props' ->
              calcCoeff div0 props' input reg coeff st1 =
              calcCoeff div0 props input reg coeff st1].
Proof.
move=> reach0; have [keys0 nonempty] := reachable_keys reach0.
have sub : {subset activeRegions rmap <= keys st0} by move=> r; rewrite keys0.
have [st1 [run keys1 avg]] := defineState_run div0 props state sub nonempty.
have reach1 : reachable div0 props rmap st1 by apply: reach_defineState run.
exists st1; split=> // reg active /=.
have [v [known pE TE]] := avg reg active.
have cellE : cell_ v = c0 reg.
  have [v' known' shape] := reachable_entry reach1 active.
  move: known' shape; rewrite known => -[<-].
  by case=> [->|[state' ->]] //; rewrite cell_defined_value.
exists v; split=> // [|input coeff|props' input coeff].
- by split=> //; apply: nonempty.
- have [m runm] := calcMiscibility_known div0 props input known.
  have [c runc] := calcCoeff_known div0 props input coeff known.
  exists m, c; split=> // wf.
  by have := calcCoeff_entries known wf runm runc; rewrite /= pE TE cellE.
- by rewrite -pE -TE; apply: calcCoeff_same_fvf.
Qed.

End AveragedCoefficients.

Section RangeFacts.

Import Details.

Variable F : realFieldType.
Variable div0 : F -> F.
Variable props : Property F.

Local Notation pu := (phaseUsage props).
Local Notation io := (PhasePos.oil pu).
Local Notation ig := (PhasePos.gas pu).

Implicit Types (st : Self F) (input : seq F) (r : RegionId).
Implicit Types (v : Value (Attributes F)) (m : Miscibility F).

(** X15.  For oil and gas rates and "RSmax", "RVmax" that are not
    negative, the [rs] and [rv] of [calcMiscibility] are not negative; at a
    zero oil rate [rv] is 0 and at a zero gas rate [rs] is 0, so that with
    either rate zero the determinant [1 - rs rv] of [calcCoeff] is 1. *)
Theorem zero_rate_determinant st input r v :
  lookup st r = Some v -> PhaseUsed.oil pu -> PhaseUsed.gas pu ->
  0 <= at_ input io -> 0 <= at_ input ig ->
  0 <= RSmax pu (attr_ v) -> 0 <= RVmax pu (attr_ v) ->
  exists m,
    [/\ calcMiscibility div0 props input r st = (Ok m, st),
        0 <= rs m /\ 0 <= rv m,
        at_ input io = 0 -> rv m = 0,
        at_ input ig = 0 -> rs m = 0
      & (at_ input io == 0) || (at_ input ig == 0) -> detR m = 1].
Proof.
move=> known oil gas; set qo := at_ input io; set qg := at_ input ig.
set rsmax := RSmax _ _; set rvmax := RVmax _ _ => qo_ge0 qg_ge0 rs_ge0 rv_ge0.
have [m run] := calcMiscibility_known div0 props input known.
have rsE := calcMiscibility_rs known oil gas run.
have rvE := calcMiscibility_rv known oil gas run.
rewrite -/qo -/qg -/rsmax !std_abs_gt0 std_minE in rsE.
rewrite -/qo -/qg -/rvmax !std_abs_gt0 std_minE in rvE.
have rs_m_ge0 : 0 <= rs m.
  rewrite rsE le_min rs_ge0 andbT.
  case: ifP => [qo_n0|_]; last by case: ifP.
  by rewrite fdiv_neq0 // divr_ge0.
have rv_m_ge0 : 0 <= rv m.
  rewrite rvE le_min rv_ge0 andbT.
  case: ifP => [qg_n0|_]; last by case: ifP.
  by rewrite fdiv_neq0 // divr_ge0.
have oil0 : qo = 0 -> rv m = 0.
  move=> qo0; rewrite rvE qo0 eqxx /=.
  case: (eqVneq qg 0) => [_|qg_n0] /=; first exact/min_idPl.
  by rewrite fdiv_neq0 // mul0r; apply/min_idPl.
have gas0 : qg = 0 -> rs m = 0.
  move=> qg0; rewrite rsE qg0 eqxx /=.
  case: (eqVneq qo 0) => [_|qo_n0] /=; first exact/min_idPl.
  by rewrite fdiv_neq0 // mul0r; apply/min_idPl.
exists m; split=> //; rewrite /detR.
by case/orP=> /eqP => [/oil0|/gas0] ->; rewrite ?mulr0 ?mul0r subr0.
Qed.

End RangeFacts.

(** ** The further properties at concrete data *)

Section FurtherInstances.

Import Details Example DeadOil Compressible.

Local Notation props2 := (props_two_phase (3 / 5) (1 / 10)).
Local Notation st2 := (state_with_Rmax [:: 3 / 5; 1 / 10]).
Local Notation v2 := (value_with_Rmax [:: 3 / 5; 1 / 10]).

(** The constructor fails on a mapping with an active region without cells,
    and succeeds on the mapping of region 0. *)
Lemma constructor_outcome_examples :
  SurfaceToReservoirVoidage props2 rmap_empty_region =
    Throw (assertion_failed "! cells.empty()") /\
  SurfaceToReservoirVoidage props2 rmap_single = Ok (fresh 2).
Proof. by split; reflexivity. Defined.

Lemma constructor_entries_witness :
  SurfaceToReservoirVoidage props2 rmap_single = Ok (fresh 2) /\
  [/\ uniq (keys (fresh 2)),
      lookup (fresh 2) 0 = Some (mkValue (mkAttributes 0 0 [:: 0; 0]) 0)
    & lookup (fresh 2) 5 = None].
Proof.
have built : SurfaceToReservoirVoidage props2 rmap_single = Ok (fresh 2).
  reflexivity.
split; first exact: built.
have [uniq_keys entries] := constructor_entries built.
by split; [exact: uniq_keys | exact: (entries 0) | exact: (entries 5)].
Defined.

Lemma defineState_last_call_wins_witness :
  SurfaceToReservoirVoidage props2 rmap_single = Ok (fresh 2) /\
  reachable div0_rat props2 rmap_single (fresh 2) /\
  exists st1,
    [/\ defineState div0_rat props2 rmap_single state_two_cells (fresh 2)
          = (Ok tt, st1)
      & defineState div0_rat props2 rmap_single state_two_cells st1
          = (Ok tt, st1)].
Proof.
have built : SurfaceToReservoirVoidage props2 rmap_single = Ok (fresh 2).
  reflexivity.
have reach := fresh_reachable props2.
split; first exact: built.
split; first exact: reach.
have [st1 [run _ again]] :=
  defineState_last_call_wins state_two_cells built reach.
by exists st1; split.
Defined.

Lemma representative_cell_is_first_witness :
  reachable div0_rat props2 rmap_single (fresh 2) /\
  0 \in activeRegions rmap_single /\
  getRegCell 0 (fresh 2) = (Ok 0, fresh 2).
Proof.
have reach := fresh_reachable props2.
split; first exact: reach.
split; first reflexivity.
by have [_ ->] := representative_cell_is_first reach (erefl true : 0 \in activeRegions rmap_single).
Defined.

Lemma defineState_saturated_ratios_witness :
  [/\ reachable div0_rat props2 rmap_single (fresh 2),
      0 \in activeRegions rmap_single,
      wf_phases props2
    & PhaseUsed.oil (phaseUsage props2) /\ PhaseUsed.gas (phaseUsage props2)]
  /\
  exists st1 v,
    [/\ defineState div0_rat props2 rmap_single state_two_cells (fresh 2)
          = (Ok tt, st1),
        lookup st1 0 = Some v,
        RSmax (phaseUsage props2) (attr_ v) = 3 / 5
      & RVmax (phaseUsage props2) (attr_ v) = 1 / 10].
Proof.
have reach := fresh_reachable props2.
split; first by split; [exact: reach | | | split].
exact: (defineState_saturated_ratios state_two_cells reach
          (erefl true : 0 \in activeRegions rmap_single) (erefl _) (erefl _) (erefl _)).
Defined.

(** Water and oil without gas, after [defineState]: the region holds the
    means 150 and 305, and its [Rmax] is still the two zeros of the
    construction, although the property object has saturated ratios 7
    and 9. *)
Lemma Rmax_untouched_witness :
  let st1 := state_with_Rmax [:: 0; 0] in
  let v := value_with_Rmax [:: 0; 0] in
  [/\ defineState div0_rat props_water_oil rmap_single state_two_cells (fresh 2)
        = (Ok tt, st1),
      reachable div0_rat props_water_oil rmap_single st1,
      ~~ (PhaseUsed.oil (phaseUsage props_water_oil)
          && PhaseUsed.gas (phaseUsage props_water_oil))
    & lookup st1 0 = Some v] /\
  [/\ pressure (attr_ v) = 150, temperature (attr_ v) = 305
    & Rmax (attr_ v) = [:: 0; 0]].
Proof.
move=> st1 v.
have run :
    defineState div0_rat props_water_oil rmap_single state_two_cells (fresh 2)
      = (Ok tt, st1).
  reflexivity.
have reach : reachable div0_rat props_water_oil rmap_single st1.
  exact: reach_defineState (fresh_reachable props_water_oil) run.
split; first by split; [exact: run | exact: reach | | reflexivity].
split; [reflexivity | reflexivity | ].
exact: (@Rmax_untouched _ div0_rat props_water_oil rmap_single st1 0 v
          reach (erefl _) (erefl _)).
Defined.

Lemma miscibility_phase_presence_witness :
  lookup st2 0 = Some v2 /\
  exists m,
    [/\ calcMiscibility div0_rat props2 rates_50_25 0 st2 = (Ok m, st2),
        hasFreeWater (cond m) = false,
        hasFreeOil (cond m) = true
      & hasFreeGas (cond m) = false].
Proof.
split; first reflexivity.
have [m [run water oil gas]] :=
  @miscibility_phase_presence _ div0_rat props2 st2 rates_50_25 0 v2 (erefl _).
exists m; split; [exact: run | exact: water | exact: oil | ].
by rewrite gas; vm_compute.
Defined.

(** No oil and a gas rate of 25: [rs] is "RSmax" = 0.6, [rv] is 0 and the
    determinant is 1. *)
Lemma zero_rate_determinant_witness :
  let rates : seq rat := [:: 0; 25] in
  [/\ lookup st2 0 = Some v2,
      PhaseUsed.oil (phaseUsage props2) /\ PhaseUsed.gas (phaseUsage props2),
      0 <= at_ rates (PhasePos.oil (phaseUsage props2))
      /\ 0 <= at_ rates (PhasePos.gas (phaseUsage props2))
    & 0 <= RSmax (phaseUsage props2) (attr_ v2)
      /\ 0 <= RVmax (phaseUsage props2) (attr_ v2)] /\
  exists m,
    [/\ calcMiscibility div0_rat props2 rates 0 st2 = (Ok m, st2),
        0 <= rs m /\ 0 <= rv m,
        rv m = 0
      & detR m = 1].
Proof.
move=> rates.
have qo_ge0 : 0 <= at_ rates (PhasePos.oil (phaseUsage props2)).
  by vm_compute.
have qg_ge0 : 0 <= at_ rates (PhasePos.gas (phaseUsage props2)).
  by vm_compute.
have rs_ge0 : 0 <= RSmax (phaseUsage props2) (attr_ v2) by vm_compute.
have rv_ge0 : 0 <= RVmax (phaseUsage props2) (attr_ v2) by vm_compute.
split; first by split; [reflexivity | split | split | split].
have [m [run nonneg oil0 _ det1]] :=
  @zero_rate_determinant _ div0_rat props2 st2 rates 0 v2
    (erefl _) (erefl _) (erefl _) qo_ge0 qg_ge0 rs_ge0 rv_ge0.
exists m; split; [exact: run | exact: nonneg | exact: oil0 | ].
by apply: det1; vm_compute.
Defined.

Lemma oil_gas_coefficients_witness :
  [/\ lookup st2 0 = Some v2, wf_phases props2,
      PhaseUsed.oil (phaseUsage props2)
    & PhaseUsed.gas (phaseUsage props2)] /\
  exists m c,
    [/\ calcMiscibility div0_rat props2 rates_50_25 0 st2 = (Ok m, st2),
        calcCoeff div0_rat props2 rates_50_25 0 [:: 7; 7] st2 = (Ok c, st2),
        at_ c 0 = fdiv div0_rat 1 (1 * detR m) - fdiv div0_rat (rs m) (1 * detR m)
      & at_ c 1 = fdiv div0_rat 1 (1 * detR m) - fdiv div0_rat (rv m) (1 * detR m)].
Proof.
split; first by split; reflexivity.
exact: (@oil_gas_coefficients _ div0_rat props2 st2 rates_50_25 [:: 7; 7] 0 v2
          (erefl _) (erefl _) (erefl _) (erefl _)).
Defined.


Lemma dead_oil_coefficient_witness :
  let st := state_with_Rmax [:: 0; 0] in
  [/\ lookup st 0 = Some (value_with_Rmax [:: 0; 0]),
      wf_phases props_water_oil,
      PhaseUsed.oil (phaseUsage props_water_oil)
    & ~~ PhaseUsed.gas (phaseUsage props_water_oil)] /\
  exists m c,
    [/\ calcMiscibility div0_rat props_water_oil [:: 10; 20] 0 st = (Ok m, st),
        calcCoeff div0_rat props_water_oil [:: 10; 20] 0 [:: 7; 7] st
          = (Ok c, st),
        [/\ rs m = 0, rv m = 0 & detR m = 1]
      & at_ c 1 = fdiv div0_rat 1 4].
Proof.
split; first by split; reflexivity.
exact: (@dead_oil_coefficient _ div0_rat props_water_oil
          (state_with_Rmax [:: 0; 0]) [:: 10; 20] [:: 7; 7] 0
          (value_with_Rmax [:: 0; 0]) (erefl _) (erefl _) (erefl _) (erefl _)).
Defined.

Lemma calcCoeff_writes_prefix_witness :
  (lookup st2 0 = Some v2 /\ wf_phases props2) /\
  exists c c',
    [/\ calcCoeff div0_rat props2 rates_50_25 0 [:: 7; 7; 8; 9] st2
          = (Ok c, st2),
        calcCoeff div0_rat props2 rates_50_25 0 [:: 1; 2] st2 = (Ok c', st2),
        drop 2 c = [:: 8; 9] /\ size (take 2 c) = 2%N
      & take 2 c = take 2 c'].
Proof.
split; first by split; reflexivity.
exact: (@calcCoeff_writes_prefix _ div0_rat props2 st2 rates_50_25
          [:: 7; 7; 8; 9] [:: 1; 2] 0 v2 (erefl _) (erefl _)).
Defined.

(** [defineState] on the freshly constructed three-phase converter of one
    region with the cell pressures 100, 200 and temperatures 300, 310, then
    [calcCoeff] for the rates (10, 50, 25): the means are 150 and 305, where
    [bw = 2] and [bo = bg = 1], and the coefficients are 1/2, 10/19 and
    18/19. *)
Lemma defineState_region_averages_witness :
  let props := props_compressible in
  let st1 := state_with_Rmax [:: 0; 3 / 5; 1 / 10] in
  [/\ reachable div0_rat props rmap_single (fresh 3),
      0 \in activeRegions rmap_single
    & wf_phases props] /\
  exists v c,
    [/\ defineState div0_rat props rmap_single state_two_cells (fresh 3)
          = (Ok tt, st1),
        lookup st1 0 = Some v,
        pressure (attr_ v) = 150 /\ temperature (attr_ v) = 305,
        calcCoeff div0_rat props [:: 10; 50; 25] 0 [:: 7; 7; 7] st1
          = (Ok c, st1)
      & [/\ at_ c 0 = 1 / 2, at_ c 1 = 10 / 19 & at_ c 2 = 18 / 19]].
Proof.
move=> props st1.
have reach := fresh_reachable props.
split; first by split; [exact: reach | reflexivity | reflexivity].
have [st1' [run avg]] := defineState_region_averages state_two_cells reach.
have st1E : st1' = st1.
  have run1 :
      defineState div0_rat props rmap_single state_two_cells (fresh 3)
        = (Ok tt, st1).
    reflexivity.
  exact: (congr1 snd (etrans (esym run) run1)).
rewrite {st1'}st1E in run avg.
have [v [[known _] [pE TE] coeffs _]] :=
  avg 0 (erefl true : 0 \in activeRegions rmap_single).
have [m [c [runm runc entries]]] := coeffs [:: 10; 50; 25] [:: 7; 7; 7].
have mE : m = mkMiscibility (1 / 2) (1 / 10)
                (setFreeOil (setFreeWater noPhase)).
  have runm1 :
      calcMiscibility div0_rat props [:: 10; 50; 25] 0 st1 =
        (Ok (mkMiscibility (1 / 2) (1 / 10)
               (setFreeOil (setFreeWater noPhase))), st1).
    reflexivity.
  exact: (congr1 (fun x : result (Miscibility rat) * Self rat =>
                    if x.1 is Ok m' then m' else m)
                 (etrans (esym runm) runm1)).
have mean_p : mean [:: 100; 200] [:: 0%N; 1%N] = 150 :> rat.
  by rewrite /mean !big_cons big_nil; apply/eqP; vm_compute.
have mean_T : mean [:: 300; 310] [:: 0%N; 1%N] = 305 :> rat.
  by rewrite /mean !big_cons big_nil; apply/eqP; vm_compute.
have [water oil gas] := entries (erefl _).
exists v, c; split; [exact: run | exact: known | | exact: runc | ].
  by rewrite pE TE; split; [exact: mean_p | exact: mean_T].
split.
- by rewrite (water (erefl _)) /= mean_p mean_T; apply/eqP; vm_compute.
- by rewrite (oil (erefl _)) /= mean_p mean_T mE; apply/eqP; vm_compute.
- by rewrite (gas (erefl _)) /= mean_p mean_T mE; apply/eqP; vm_compute.
Defined.

End FurtherInstances.
